(** * Phosphom: kinase motif matching, normalisation and validation

    A shallow embedding of the core of the Phosphom package
    ([Phosphom/motif_db.py], [Phosphom/normalization.py],
    [Phosphom/validation.py]) and the properties proved about it.

    Conventions of the embedding.
    - A Python [str] is a [string]; the model covers 7-bit ASCII text
      (amino-acid sequences, kinase names, table cells).
    - A Python [int] is a [Z]; [len] is [String.length] seen in [Z].
    - A Python [float] that is only compared (a motif's specificity, the
      [min_confidence] threshold) is the exact rational value of the
      binary64 number; comparison of finite doubles is comparison of
      these rationals.  The metrics of [calculate_f1_metrics], which are
      computed by float division, are modelled by exact rational
      arithmetic (rounding is not modelled).
    - A [dict] whose iteration order matters is an association list in
      insertion order; a Python [set] is a [gset]; a table row is a
      [gmap] from column labels to cells.
    - An exception is a value of [exn] returned in [Err]. *)

From Stdlib Require Import ZArith QArith Qabs Lia Ascii String.
From stdpp Require Import base decidable option list strings gmap sorting.

Local Open Scope string_scope.
Local Open Scope list_scope.

(** ** Python string primitives *)
Module PyStr.

(** [len(s)] *)
Definition len (s : string) : Z := Z.of_nat (String.length s).

(** The slice [s[start:stop]]: a negative bound counts from the end,
    and both bounds are then clamped to [0, len(s)]. *)
Definition clamp_index (n i : Z) : Z :=
  let i := (if i <? 0 then i + n else i)%Z in
  (if i <? 0 then 0 else if n <? i then n else i)%Z.

Definition slice (s : string) (start stop : Z) : string :=
  let lo := clamp_index (len s) start in
  let hi := clamp_index (len s) stop in
  String.substring (Z.to_nat lo) (Z.to_nat (hi - lo)) s.

(** [s.startswith(p)] *)
Fixpoint startswith (p s : string) : bool :=
  match p, s with
  | EmptyString, _ => true
  | String a p', String b s' => Ascii.eqb a b && startswith p' s'
  | String _ _, EmptyString => false
  end.

(** [p in s]: [p] occurs in [s] as a contiguous substring. *)
Fixpoint contains (p s : string) : bool :=
  startswith p s ||
  match s with
  | EmptyString => false
  | String _ s' => contains p s'
  end.

(** Membership of a character in a set of characters given as a string. *)
Fixpoint mem (c : ascii) (cs : string) : bool :=
  match cs with
  | EmptyString => false
  | String a cs' => Ascii.eqb c a || mem c cs'
  end.

(** [c.isspace()] on ASCII: TAB, LF, VT, FF, CR, FS, GS, RS, US, space. *)
Definition isspace (c : ascii) : bool :=
  let n := nat_of_ascii c in
  ((9 <=? n) && (n <=? 13) || (28 <=? n) && (n <=? 32))%nat.

(** [c.upper()] on ASCII. *)
Definition upper_char (c : ascii) : ascii :=
  let n := nat_of_ascii c in
  if ((97 <=? n) && (n <=? 122))%nat then ascii_of_nat (n - 32) else c.

(** [s.upper()] *)
Fixpoint upper (s : string) : string :=
  match s with
  | EmptyString => EmptyString
  | String c s' => String (upper_char c) (upper s')
  end.

(** [s.lstrip()], [s.rstrip()] and [s.strip()] *)
Fixpoint lstrip (s : string) : string :=
  match s with
  | EmptyString => EmptyString
  | String c s' => if isspace c then lstrip s' else s
  end.

Fixpoint rstrip (s : string) : string :=
  match s with
  | EmptyString => EmptyString
  | String c s' =>
      match rstrip s' with
      | EmptyString => if isspace c then EmptyString else String c EmptyString
      | t => String c t
      end
  end.

Definition strip (s : string) : string := rstrip (lstrip s).

(** Splitting at every character satisfying [sep]: [s.split(",")] and
    [re.split(r"[;,]", s)].  The result is never empty. *)
Fixpoint split_at (sep : ascii -> bool) (s : string) : list string :=
  match s with
  | EmptyString => [EmptyString]
  | String c s' =>
      if sep c then EmptyString :: split_at sep s'
      else match split_at sep s' with
           | tok :: toks => String c tok :: toks
           | [] => [String c EmptyString]
           end
  end.

Definition split (sep : ascii) (s : string) : list string :=
  split_at (Ascii.eqb sep) s.

(** Deleting every character satisfying [drop]: [re.sub(r"[...]", "", s)]. *)
Fixpoint remove_chars (drop : ascii -> bool) (s : string) : string :=
  match s with
  | EmptyString => EmptyString
  | String c s' =>
      if drop c then remove_chars drop s' else String c (remove_chars drop s')
  end.

(** [sep.join(l)] *)
Fixpoint join (sep : string) (l : list string) : string :=
  match l with
  | [] => EmptyString
  | [x] => x
  | x :: l' => x +:+ sep +:+ join sep l'
  end.

End PyStr.

(** ** The fragment of Python's [re] used by the motif patterns *)
Module Regex.

Inductive regex : Type :=
| Dot                                     (* [.]  any character but a newline *)
| Lit (c : ascii)                         (* a literal character *)
| Cls (cs : string)                       (* [[...]]  a character class *)
| Cat (r1 r2 : regex)                     (* concatenation *)
| Alt (r1 r2 : regex)                     (* [r1|r2] *)
| Rep (r : regex) (lo hi : nat)           (* [r{lo,hi}], greedy *)
| NegLook (r : regex)                     (* [(?!r)] *)
| Grp (r : regex).                        (* [(r)]  a capturing group *)

(** [r?] *)
Definition Opt (r : regex) : regex := Rep r 0 1.

(** [rep step lo hi s]: the suffixes of [s] left by between [lo] and
    [hi] consecutive matches of [step], the longest repetitions first. *)
Fixpoint rep (step : string -> list string) (lo hi : nat) (s : string)
  : list string :=
  match hi with
  | O => match lo with O => [s] | S _ => [] end
  | S hi' =>
      (step s ≫= rep step (pred lo) hi')
      ++ match lo with O => [s] | S _ => [] end
  end.

(** [ends r s]: every suffix of [s] that remains after [r] has matched
    a prefix of [s], in the order in which a backtracking matcher
    tries them. *)
Fixpoint ends (r : regex) (s : string) : list string :=
  match r with
  | Dot =>
      match s with
      | String c t => if Ascii.eqb c "010"%char then [] else [t]
      | EmptyString => []
      end
  | Lit a =>
      match s with
      | String c t => if Ascii.eqb c a then [t] else []
      | EmptyString => []
      end
  | Cls cs =>
      match s with
      | String c t => if PyStr.mem c cs then [t] else []
      | EmptyString => []
      end
  | Cat r1 r2 => ends r1 s ≫= ends r2
  | Alt r1 r2 => ends r1 s ++ ends r2 s
  | Rep r1 lo hi => rep (ends r1) lo hi s
  | NegLook r1 => match ends r1 s with [] => [s] | _ :: _ => [] end
  | Grp r1 => ends r1 s
  end.

(** [pattern.match(s)] is not [None] *)
Definition matches_at (r : regex) (s : string) : bool :=
  match ends r s with [] => false | _ :: _ => true end.

(** [pattern.search(s)] is not [None]: a match starts at some position
    of [s], the end of [s] included. *)
Fixpoint search (r : regex) (s : string) : bool :=
  matches_at r s ||
  match s with
  | EmptyString => false
  | String _ t => search r t
  end.

End Regex.

(** ** Python dictionaries in insertion order, and the stable [sorted] *)
Module PyDict.
Section dict.
Context {V : Type}.

Definition dict : Type := list (string * V).

(** [d.get(k)]; [None] stands for [k not in d]. *)
Fixpoint get (k : string) (d : dict) : option V :=
  match d with
  | [] => None
  | (k', v) :: d' => if String.eqb k' k then Some v else get k d'
  end.

(** [d[k] = v]: an existing key keeps its place, a new key goes last. *)
Fixpoint set (k : string) (v : V) (d : dict) : dict :=
  match d with
  | [] => [(k, v)]
  | (k', v') :: d' =>
      if String.eqb k' k then (k', v) :: d' else (k', v') :: set k v d'
  end.

(** [d.keys()] *)
Definition keys (d : dict) : list string := d.*1.
End dict.
Arguments dict : clear implicits.

(** The elements of [l] in first-seen order and without duplicates:
    [list(dict.fromkeys(l))], [series.unique()]. *)
Fixpoint first_seen {A : Type} `{EqDecision A} (l : list A) : list A :=
  match l with
  | [] => []
  | x :: l' => x :: filter (fun y => y ≠ x) (first_seen l')
  end.

(** [l.index(x)] when [x] is in [l], and [len(l)] otherwise. *)
Fixpoint index_of {A : Type} `{EqDecision A} (x : A) (l : list A) : nat :=
  match l with
  | [] => 0
  | y :: l' => if decide (y = x) then 0 else S (index_of x l')
  end.
End PyDict.

Module PySort.
(** [x < y] on rationals, as a boolean. *)
Definition Qltb (x y : Q) : bool := negb (Qle_bool y x).

Section sorted.
Context {A : Type} (key : A -> Q).

(** [x] is placed before the first element whose key is not below
    its own, so that it stays in front of the elements of equal key
    that followed it in the input. *)
Fixpoint insert (x : A) (l : list A) : list A :=
  match l with
  | [] => [x]
  | y :: l' => if Qltb (key y) (key x) then y :: insert x l' else x :: l
  end.

(** [sorted(l, key=key)]: ascending in [key], stable. *)
Definition sorted (l : list A) : list A := foldr insert [] l.
End sorted.
End PySort.

(** ** [Phosphom/motif_db.py] *)
Module MotifDb.
Import Regex.

Declare Scope regex_scope.
Delimit Scope regex_scope with re.
Bind Scope regex_scope with regex.
Notation "r1 ~> r2" := (Cat r1 r2)
  (at level 60, right associativity) : regex_scope.
Notation "r1 || r2" := (Alt r1 r2) : regex_scope.

(** *** Binary64 constants *)

(** The rational [m / 2^e]. *)
Definition double (m : Z) (e : positive) : Q := Qmake m (2 ^ e).

(** [m / 2^e] is the double nearest to [d]: a 53-bit significand
    within half a unit in the last place of [d]. *)
Definition nearest_double (d : Q) (m : Z) (e : positive) : Prop :=
  (2 ^ 52 <= m < 2 ^ 53)%Z /\ (Qabs (double m e - d) < 1 # 2 ^ (e + 1))%Q.

Definition f0_30 : Q := double 5404319552844595 54.
Definition f0_45 : Q := double 8106479329266893 54.
Definition f0_55 : Q := double 4953959590107546 53.
Definition f0_60 : Q := double 5404319552844595 53.
Definition f0_65 : Q := double 5854679515581645 53.
Definition f0_70 : Q := double 6305039478318694 53.
Definition f0_75 : Q := double 6755399441055744 53.
Definition f0_80 : Q := double 7205759403792794 53.
Definition f0_85 : Q := double 7656119366529843 53.
Definition f1_1 : Q := double 4953959590107546 52.

(** A [float] argument: a finite double, an infinity or a NaN. *)
Inductive pyfloat : Type :=
| Finite (q : Q)
| PosInf
| NegInf
| NaN.

(** [x >= y] for a finite [x]. *)
Definition float_ge (x : Q) (y : pyfloat) : bool :=
  match y with
  | Finite q => Qle_bool q x
  | PosInf => false
  | NegInf => true
  | NaN => false
  end.

(** *** Data type *)
Record MotifEntry : Type := mkMotifEntry {
  kinase : string;
  pattern : regex;
  specificity : Q;
  description : string
}.

(** *** Fragment window size *)
Definition WINDOW_HALF : Z := 7.

(** *** Motif database (31 kinases, 31 patterns) *)
Definition MOTIF_DB : list MotifEntry := [
  (* Basophilic & IIS signaling *)
  mkMotifEntry "PKA"
    (Grp (Cls "RK" ~> Cls "RK" ~> Dot ~> Grp (Cls "ST"))
     || Grp (Cls "RK" ~> Rep Dot 1 2 ~> Grp (Cls "ST")))
    f0_60 "[R/K][R/K]-X-S/T | [R/K]-X(1-2)-S/T";
  mkMotifEntry "AKT"
    (Lit "R" ~> Dot ~> Cls "RK" ~> Dot ~> Dot ~> Grp (Cls "ST")
     ~> NegLook (Lit "P") ~> Cls "LIVMFY")
    f0_85 "R-X-[R/K]-X-X-S/T-!P-Φ";
  mkMotifEntry "AMPK"
    (Grp (Cls "LIVMF" ~> Dot ~> Lit "R" ~> Dot ~> Grp (Cls "ST")
          ~> NegLook (Lit "P") ~> Rep Dot 2 2 ~> Cls "LIVMF")
     || Grp (Cls "LIVMF" ~> Dot ~> Lit "R" ~> Dot ~> Dot ~> Grp (Cls "ST")
             ~> NegLook (Lit "P")))
    f0_70 "Φ-X-R-X-S/T-!P-X-X-Φ | Φ-X-R-X-X-S/T-!P";
  mkMotifEntry "S6K1"
    (Cls "RK" ~> Lit "R" ~> Dot ~> Dot ~> Grp (Cls "ST") ~> Cls "LIVMF")
    f0_75 "[R/K]-R-X-X-S/T-Φ";
  mkMotifEntry "SGK1"
    (Lit "R" ~> Dot ~> Lit "R" ~> Dot ~> Dot ~> Grp (Cls "ST") ~> Cls "LIV")
    f0_80 "R-X-R-X-X-S/T-[L/I/V]";
  mkMotifEntry "RSK"
    (Cls "RK" ~> Lit "R" ~> Dot ~> Grp (Cls "ST"))
    f0_60 "[R/K]-R-X-S/T";
  mkMotifEntry "PKC"
    (Cls "RK" ~> Dot ~> Grp (Cls "ST") ~> Cls "LIV" ~> Cls "RK")
    f0_75 "[R/K]-X-S/T-Φ-[R/K]";
  mkMotifEntry "PKD"
    (Lit "L" ~> Dot ~> Lit "R" ~> Dot ~> Dot ~> Grp (Cls "ST"))
    f0_70 "L-X-R-X-X-S/T";
  mkMotifEntry "LKB1"
    (Cls "LIVM" ~> Cls "RK" ~> Dot ~> Grp (Cls "ST") ~> Rep Dot 2 2
     ~> Cls "LIVM")
    f0_70 "Φ-[R/K]-X-S/T-X-X-Φ";
  (* Proline-directed (MAPK & cell cycle) *)
  mkMotifEntry "CDK"
    (Grp (Cls "ST") ~> Lit "P" ~> Dot ~> Cls "RK")
    f0_80 "S/T-P-X-[K/R]";
  mkMotifEntry "Erk"
    (Cls "PLV" ~> Dot ~> Grp (Cls "ST") ~> Lit "P")
    f0_70 "[P/L/V]-X-S/T-P";
  mkMotifEntry "JNK"
    (Lit "P" ~> Dot ~> Grp (Cls "ST") ~> Lit "P")
    f0_75 "P-X-S/T-P";
  mkMotifEntry "p38&MAPK"
    (Cls "LIVMFY" ~> Dot ~> Grp (Cls "ST") ~> Lit "P")
    f0_60 "Φ-X-S/T-P";
  mkMotifEntry "mTOR"
    (Grp (Cls "ST") ~> Lit "P" ~> Cls "FLIV")
    f0_65 "S/T-P-Φ";
  mkMotifEntry "GSK-3beta"
    (Grp (Cls "ST") ~> Rep Dot 3 3 ~> Cls "ST")
    f0_30 "S/T-X-X-X-S/T (priming required — high FP without evidence)";
  mkMotifEntry "DYRK1A"
    (Lit "R" ~> Dot ~> Dot ~> Grp (Cls "ST") ~> Lit "P")
    f0_75 "R-X-X-S/T-P";
  mkMotifEntry "HIPK2"
    (Grp (Cls "ST") ~> Lit "P" ~> Dot ~> Lit "K")
    f0_80 "S/T-P-X-K";
  mkMotifEntry "BUB1"
    (Grp (Cls "ST") ~> Lit "P" ~> Dot ~> Lit "R")
    f0_70 "S/T-P-X-R";
  (* Acidophilic & DNA damage *)
  mkMotifEntry "CK2"
    (Grp (Cls "ST") ~> NegLook (Lit "P") ~> Rep Dot 1 2
     ~> Rep (Cls "DE") 2 3)
    f0_75 "S/T-!P-X(1-2)-[D/E](2-3)";
  mkMotifEntry "CK1"
    (Grp (Rep (Cls "DE") 1 2 ~> Rep Dot 1 2 ~> Grp (Cls "ST"))
     || Grp (Grp (Cls "ST") ~> Rep Dot 2 3 ~> Grp (Cls "ST")))
    f0_45 "[D/E](1-2)-X(1-2)-S/T | S/T-X(2-3)-S/T (acidophilic + primed)";
  mkMotifEntry "PLK1"
    (Cls "DE" ~> Dot ~> Grp (Cls "ST") ~> Cls "LIVMF")
    f0_75 "[D/E]-X-S/T-Φ";
  mkMotifEntry "ATM&ATR"
    (Grp (Cls "ST") ~> Lit "Q")
    f0_55 "S/T-Q (broad consensus; DNA-PK is more specific)";
  mkMotifEntry "DNA-PK"
    (Grp (Cls "ST") ~> Lit "Q" ~> Cls "DE")
    f0_80 "S/T-Q-[D/E]";
  mkMotifEntry "IKK"
    (Cls "DE" ~> Rep Dot 1 2 ~> Grp (Cls "ST") ~> Lit "G" ~> Dot
     ~> Grp (Cls "ST"))
    f0_80 "[D/E]-X(1-2)-S-G-X-S";
  (* Other key kinases *)
  mkMotifEntry "CaMK2"
    (Cls "RK" ~> Dot ~> Dot ~> Grp (Cls "ST") ~> Opt (Grp (Cls "LIVMF")))
    f0_55 "[R/K]-X-X-S/T-Φ? (Φ optional)";
  mkMotifEntry "Aurora A"
    (Cls "RK" ~> Dot ~> Grp (Cls "ST") ~> Cls "LIVMF")
    f0_65 "[R/K]-X-S/T-Φ";
  mkMotifEntry "Aurora B"
    (Cls "RK" ~> Lit "R" ~> Dot ~> Grp (Cls "ST") ~> Cls "LIVMF")
    f0_75 "[R/K]-R-X-S/T-Φ";
  mkMotifEntry "Chk1"
    (Cls "LIVMF" ~> Lit "R" ~> Dot ~> Dot ~> Grp (Cls "ST"))
    f0_65 "Φ-R-X-X-S/T";
  mkMotifEntry "Chk2"
    (Lit "R" ~> Dot ~> Dot ~> Grp (Cls "ST") ~> Cls "LIVMF")
    f0_65 "R-X-X-S/T-Φ";
  mkMotifEntry "NEK2"
    (Cls "LIVMF" ~> Lit "R" ~> Dot ~> Dot ~> Grp (Cls "ST"))
    f0_65 "Φ-R-X-X-S/T";
  mkMotifEntry "MK2"
    (Cls "LIVM" ~> Dot ~> Lit "R" ~> Dot ~> Grp (Cls "ST"))
    f0_65 "[L/I/V/M]-X-R-X-S/T"
]%re.

(** *** Auto-derived kinase keys (preserving first-seen order, no duplicates) *)
Definition KINASE_KEYS : list string := PyDict.first_seen (kinase <$> MOTIF_DB).

(** *** Core matching function *)

(** One turn of the loop over the database: [hits] after [entry]. *)
Definition record_hit (fragment : string) (min_confidence : pyfloat)
    (hits : PyDict.dict Q) (entry : MotifEntry) : PyDict.dict Q :=
  if search (pattern entry) fragment then
    if float_ge (specificity entry) min_confidence then
      (* Keep highest score per kinase *)
      match PyDict.get (kinase entry) hits with
      | None => PyDict.set (kinase entry) (specificity entry) hits
      | Some old =>
          if PySort.Qltb old (specificity entry)
          then PyDict.set (kinase entry) (specificity entry) hits
          else hits
      end
    else hits
  else hits.

(** The window of [full_seq] around [index]. *)
Definition fragment_of (full_seq : string) (index : Z) : string :=
  let start := Z.max 0 (index - WINDOW_HALF) in
  let stop := Z.min (PyStr.len full_seq) (index + WINDOW_HALF + 1) in
  PyStr.slice full_seq start stop.

Definition identify_kinases_with (db : list MotifEntry)
    (full_seq : string) (index : Z) (min_confidence : pyfloat)
  : list (string * Q) :=
  let fragment := fragment_of full_seq index in
  let hits := foldl (record_hit fragment min_confidence) [] db in
  PySort.sorted (fun x => - x.2)%Q hits.

Definition identify_kinases : string -> Z -> pyfloat -> list (string * Q) :=
  identify_kinases_with MOTIF_DB.

End MotifDb.

(** ** The part of pandas used by the package *)
Module Pandas.

(** A table cell: the missing value ([NaN]/[None]), a text or a boolean.
    Numeric cells are outside the model. *)
Inductive cell : Type :=
| NA
| Str (s : string)
| Bool (b : bool).

#[global] Instance cell_eq_dec : EqDecision cell.
Proof. solve_decision. Defined.

(** A [DataFrame] with the default integer index: its column labels and
    its rows, each row mapping a label to a cell. *)
Record DataFrame : Type := mkDataFrame {
  columns : list string;
  rows : list (gmap string cell)
}.

(** [row[label]] for a label of the frame. *)
Definition at_ (row : gmap string cell) (label : string) : cell :=
  default NA (row !! label).

(** [pd.isna(c)] and [pd.notna(c)] *)
Definition isna (c : cell) : bool :=
  match c with NA => true | _ => false end.
Definition notna (c : cell) : bool := negb (isna c).

(** [str(c)] *)
Definition to_str (c : cell) : string :=
  match c with
  | NA => "nan"
  | Str s => s
  | Bool true => "True"
  | Bool false => "False"
  end.

(** [c.fillna(v)] on one cell *)
Definition fillna (v : string) (c : cell) : cell :=
  match c with NA => Str v | _ => c end.

(** [series.dropna()] *)
Definition dropna (l : list cell) : list cell :=
  c ← l; if isna c then [] else [c].

(** [df.drop_duplicates(subset=...)]: the first row of every key is
    kept; [seen] holds the keys met so far. *)
Fixpoint drop_duplicates_from {K : Type} `{EqDecision K}
    (key : gmap string cell -> K) (seen : list K)
    (rs : list (gmap string cell)) : list (gmap string cell) :=
  match rs with
  | [] => []
  | r :: rs' =>
      if decide (key r ∈ seen) then drop_duplicates_from key seen rs'
      else r :: drop_duplicates_from key (key r :: seen) rs'
  end.

Definition drop_duplicates {K : Type} `{EqDecision K}
    (key : gmap string cell -> K) (rs : list (gmap string cell))
  : list (gmap string cell) :=
  drop_duplicates_from key [] rs.

(** [df.groupby(label)]: the rows of every non-missing key.  pandas
    yields the groups in key order; they are listed here in order of
    first appearance, which the sums taken over them do not see. *)
Definition groupby (label : string) (rs : list (gmap string cell))
  : list (cell * list (gmap string cell)) :=
  (fun k => (k, filter (fun r => at_ r label = k) rs))
    <$> PyDict.first_seen (dropna ((fun r => at_ r label) <$> rs)).

(** Exceptions raised by the package or by pandas on its behalf. *)
Inductive exn : Type :=
| ValueError_missing_columns (missing : gset string)
    (* [ValueError("Required columns are missing: ...")] *)
| KeyError (key : string).
    (* [KeyError(key)]; the integer key [0] is written ["0"] *)

Inductive result (A : Type) : Type :=
| Ok (a : A)
| Err (e : exn).
Arguments Ok {A} a.
Arguments Err {A} e.

End Pandas.

(** ** [Phosphom/normalization.py] *)
Module Normalization.
Import Pandas.

Definition required : gset string := {[ "Kinase Name"; "Motif" ]}.

(** [cell.fillna("").astype(str).str.split(",")] on one cell *)
Definition split_cell (c : cell) : list string :=
  PyStr.split "," (to_str (fillna "" c)).

(** Ensure same-length lists (pad confidence with [""] if shorter). *)
Definition _align (k_list c_list : list string) : list string * list string :=
  let c_list := c_list ++ replicate (length k_list - length c_list) "" in
  (k_list, take (length k_list) c_list).

(** A row after the split, the alignment, [df.explode(["Kinase Name",
    "Confidence"])] and the strip of ["Confidence"]. *)
Definition explode_aligned (row : gmap string cell) : list (gmap string cell) :=
  let '(k_list, c_list) :=
    _align (split_cell (at_ row "Kinase Name"))
           (split_cell (at_ row "Confidence")) in
  (fun kc : string * string =>
     <["Confidence" := Str (PyStr.strip kc.2)]>
       (<["Kinase Name" := Str kc.1]> row))
    <$> zip k_list c_list.

(** A row after the split and [df.explode("Kinase Name")]. *)
Definition explode_kinase (row : gmap string cell) : list (gmap string cell) :=
  (fun k : string => <["Kinase Name" := Str k]> row)
    <$> split_cell (at_ row "Kinase Name").

(** [.str.strip()] on one cell *)
Definition str_strip (c : cell) : cell :=
  match c with Str s => Str (PyStr.strip s) | _ => NA end.

(** The last three statements: strip the kinase names, drop the empty
    ones, drop duplicate (Motif, Kinase Name) pairs. *)
Definition strip_kinase (row : gmap string cell) : gmap string cell :=
  <["Kinase Name" := str_strip (at_ row "Kinase Name")]> row.

Definition motif_kinase (row : gmap string cell) : cell * cell :=
  (at_ row "Motif", at_ row "Kinase Name").

Definition tidy (rs : list (gmap string cell)) : list (gmap string cell) :=
  let rs := strip_kinase <$> rs in
  let rs := filter (fun r => at_ r "Kinase Name" ≠ Str "") rs in
  drop_duplicates motif_kinase rs.

Definition normalize_kinase_rows (df : DataFrame) : result DataFrame :=
  let missing := required ∖ list_to_set (columns df) in
  if decide (missing = ∅) then
    if decide ("Confidence" ∈ columns df) then
      match rows df with
      | [] =>
          (* [df.apply(..., result_type="expand")] hands back a copy of
             a frame without rows, which has no column [0]:
             [aligned[0]] raises. *)
          Err (KeyError "0")
      | _ :: _ =>
          Ok (mkDataFrame (columns df) (tidy (rows df ≫= explode_aligned)))
      end
    else Ok (mkDataFrame (columns df) (tidy (rows df ≫= explode_kinase)))
  else Err (ValueError_missing_columns missing).

End Normalization.

(** ** [Phosphom/validation.py] *)
Module Validation.
Import Pandas.

(** Minimum sequence length for reliable substring matching in validation *)
Definition _MIN_MATCH_LEN : Z := 7.

(** [re.sub(r"[&\s\-_/]", "", str(name)).upper()] *)
Definition _normalize_name_for_matching (name : string) : string :=
  PyStr.upper
    (PyStr.remove_chars (fun c => PyStr.mem c "&-_/" || PyStr.isspace c) name).

Definition _kinase_names_match (pred actual : string) : bool :=
  String.eqb (_normalize_name_for_matching pred)
             (_normalize_name_for_matching actual).

(** The test made on one reference window [s]. *)
Definition window_found (p_motif s : string) : bool :=
  ((_MIN_MATCH_LEN <=? PyStr.len p_motif)%Z && PyStr.contains p_motif s)
  || ((_MIN_MATCH_LEN <=? PyStr.len s)%Z && PyStr.contains s p_motif).

(** [any(... for s in ref_seqs)] *)
Definition motif_found (p_motif : string) (ref_seqs : list string) : bool :=
  existsb (window_found p_motif) ref_seqs.

(** Find all reference kinases whose substrates contain this motif. *)
Definition find_kinases (kinase_ref_data : PyDict.dict (list string))
    (p_motif : string) : list string :=
  kv ← kinase_ref_data;
  if motif_found p_motif kv.2 then [kv.1] else [].

(** The inner loop: some [actual] matches [pred]. *)
Fixpoint some_actual_matches (pred : string) (found_kinases : list string)
  : bool :=
  match found_kinases with
  | [] => false
  | actual :: rest =>
      if _kinase_names_match pred actual then true
      else some_actual_matches pred rest
  end.

(** The outer loop, entered with [is_correct] and left at the first
    prediction that matched. *)
Fixpoint check_predictions (is_correct : bool) (p_preds found_kinases : list string)
  : bool :=
  match p_preds with
  | [] => is_correct
  | pred :: rest =>
      if is_correct then is_correct
      else check_predictions (some_actual_matches pred found_kinases)
                             rest found_kinases
  end.

(** The three cells added to a row. *)
Record verdict : Type := mkVerdict {
  In_PSP : bool;
  Correct : bool;
  Actual_Kinases_in_PSP : string
}.

Definition parse_predictions (c : cell) : list string :=
  let p_preds_raw := if notna c then to_str c else "" in
  p ← PyStr.split "," p_preds_raw;
  if decide (PyStr.strip p = "") then [] else [PyStr.strip p].

Definition validate_row (kinase_ref_data : PyDict.dict (list string))
    (row : gmap string cell) : verdict :=
  let p_motif := PyStr.upper (to_str (at_ row "Motif")) in
  let p_preds := parse_predictions (at_ row "Kinase Name") in
  let found_kinases := find_kinases kinase_ref_data p_motif in
  let is_correct :=
    match found_kinases with
    | [] => false
    | _ :: _ => check_predictions false p_preds found_kinases
    end in
  mkVerdict (bool_decide (0 < length found_kinases)%nat)
            is_correct
            (PyStr.join ", " found_kinases).

(** [pd.concat([pm_df, res_df], axis=1)] on one row *)
Definition annotate (row : gmap string cell) (v : verdict) : gmap string cell :=
  <["Actual_Kinases_in_PSP" := Str (Actual_Kinases_in_PSP v)]>
    (<["Correct" := Bool (Correct v)]>
       (<["In_PSP" := Bool (In_PSP v)]> row)).

Record acc_summary : Type := mkAccSummary {
  total_motifs : Z;
  matched_psp : Z;
  correct : Z;
  acc_percent : Q
}.

(** [validate_predictions] applied to the reference data that
    [load_reference_data(ref_file_path)] returned.  A frame without
    rows makes [res_df] a frame without columns, and [res_df["In_PSP"]]
    raises; a missing input column raises at the first row. *)
Definition validate_predictions (pm_df : DataFrame)
    (kinase_ref_data : PyDict.dict (list string))
  : result (DataFrame * acc_summary) :=
  match rows pm_df with
  | [] => Err (KeyError "In_PSP")
  | _ :: _ =>
      if decide ("Motif" ∈ columns pm_df) then
        if decide ("Kinase Name" ∈ columns pm_df) then
          let results := validate_row kinase_ref_data <$> rows pm_df in
          let final_df :=
            mkDataFrame
              (columns pm_df ++ ["In_PSP"; "Correct"; "Actual_Kinases_in_PSP"])
              (zip_with annotate (rows pm_df) results) in
          let valid_rows := filter (fun v => In_PSP v = true) results in
          let n_correct :=
            Z.of_nat (length (filter (fun v => Correct v = true) valid_rows)) in
          let n_valid := Z.of_nat (length valid_rows) in
          let acc :=
            match valid_rows with
            | [] => 0%Q
            | _ :: _ => (inject_Z n_correct / inject_Z n_valid * 100)%Q
            end in
          Ok (final_df,
              mkAccSummary (Z.of_nat (length (rows pm_df))) n_valid n_correct acc)
        else Err (KeyError "Kinase Name")
      else Err (KeyError "Motif")
  end.

(** *** F1-score calculation *)

(** Split a comma/semicolon-separated field into trimmed strings. *)
Definition _parse_field (s : cell) : list string :=
  if isna s then []
  else
    p ← PyStr.split_at (fun c => PyStr.mem c ";,") (to_str s);
    if decide (PyStr.strip p = "") then [] else [PyStr.strip p].

(** Actual kinases from PSP, for one group. *)
Definition actual_set (group : list (gmap string cell)) : gset string :=
  let actual_raw := dropna ((fun r => at_ r "Actual_Kinases_in_PSP") <$> group) in
  let actual_list :=
    match actual_raw with
    | [] => []
    | first :: _ => _parse_field first
    end in
  list_to_set (_normalize_name_for_matching <$> actual_list).

(** Predicted kinases, for one group. *)
Definition pred_set (group : list (gmap string cell)) : gset string :=
  let preds_raw := to_str <$> dropna ((fun r => at_ r "Kinase Name") <$> group) in
  list_to_set
    (item ← preds_raw;
     _normalize_name_for_matching <$> _parse_field (Str item)).

(** The running totals [(total_tp, total_fp, total_fn)] after a group. *)
Definition count_group (totals : Z * Z * Z) (group : list (gmap string cell))
  : Z * Z * Z :=
  let '(total_tp, total_fp, total_fn) := totals in
  let p := pred_set group in
  let a := actual_set group in
  ((total_tp + Z.of_nat (size (p ∩ a)))%Z,
   (total_fp + Z.of_nat (size (p ∖ a)))%Z,
   (total_fn + Z.of_nat (size (a ∖ p)))%Z).

Record metrics : Type := mkMetrics {
  precision : Q;
  recall : Q;
  f1_score : Q;
  tp : Z;
  fp : Z;
  fn : Z
}.

Definition metrics_of (totals : Z * Z * Z) : metrics :=
  let '(total_tp, total_fp, total_fn) := totals in
  let precision :=
    if (0 <? total_tp + total_fp)%Z
    then (inject_Z total_tp / inject_Z (total_tp + total_fp))%Q else 0%Q in
  let recall :=
    if (0 <? total_tp + total_fn)%Z
    then (inject_Z total_tp / inject_Z (total_tp + total_fn))%Q else 0%Q in
  let f1 :=
    if PySort.Qltb 0 (precision + recall)
    then (2 * precision * recall / (precision + recall))%Q else 0%Q in
  mkMetrics precision recall f1 total_tp total_fp total_fn.

(** [calculate_f1_metrics]: a missing column raises where it is first
    read, the two per-group columns only if there is a group. *)
Definition calculate_f1_metrics (df : DataFrame) : result metrics :=
  if decide ("Motif" ∈ columns df) then
    let groups := (groupby "Motif" (rows df)).*2 in
    match groups with
    | [] => Ok (metrics_of (0, 0, 0)%Z)
    | _ :: _ =>
        if decide ("Actual_Kinases_in_PSP" ∈ columns df) then
          if decide ("Kinase Name" ∈ columns df) then
            Ok (metrics_of (foldl count_group (0, 0, 0)%Z groups))
          else Err (KeyError "Kinase Name")
        else Err (KeyError "Actual_Kinases_in_PSP")
    end
  else Err (KeyError "Motif").

End Validation.
(** ** Vocabulary of the statements *)
Module PyStrSpec.
(** [p] is [s] with a prefix and a suffix cut off. *)
Definition substring_of (p s : string) : Prop :=
  ∃ pre post, s = pre +:+ p +:+ post.

(** Every character of [s] satisfies [f]. *)
Fixpoint all_chars (f : ascii -> bool) (s : string) : bool :=
  match s with
  | EmptyString => true
  | String c s' => f c && all_chars f s'
  end.

(** [s] holds none of the characters in [sep]. *)
Definition free_of (sep : ascii -> bool) (s : string) : Prop :=
  all_chars (fun c => negb (sep c)) s = true.

(** [s] does not begin with white space. *)
Definition clean_start (s : string) : Prop :=
  match s with
  | EmptyString => True
  | String c _ => PyStr.isspace c = false
  end.
End PyStrSpec.
Module PySortSpec.
Section lex.
Context {A : Type} (key : A -> Q) (pos : A -> nat).

(** [x] comes before [y]: a smaller key, or an equal key and an
    earlier position. *)
Definition lex (x y : A) : Prop :=
  (key x < key y)%Q ∨ ((key x == key y)%Q ∧ (pos x < pos y)%nat).
End lex.
End PySortSpec.

Module MotifSpec.
Import MotifDb.

(** The entry's pattern occurs in the fragment and its score reaches
    the threshold. *)
Definition qualifies (fragment : string) (min_confidence : pyfloat)
    (e : MotifEntry) : bool :=
  Regex.search (pattern e) fragment && float_ge (specificity e) min_confidence.

(** The place of a kinase in the database's declaration order. *)
Definition declaration_index (k : string) : nat :=
  PyDict.index_of k KINASE_KEYS.

(** [x] is ranked before [y]: a higher confidence, or the same
    confidence and an earlier declaration. *)
Definition ranked_before (x y : string * Q) : Prop :=
  (y.2 < x.2)%Q
  ∨ ((x.2 == y.2)%Q ∧ (declaration_index x.1 < declaration_index y.1)%nat).
End MotifSpec.

Module MotifSpec2.
Import MotifDb MotifSpec.

(** [c] is the highest specificity among the entries of [db] that are
    named [k] and qualify: it is the score of one of them and bounds
    the score of each. *)
Definition best_of (fragment : string) (min_confidence : pyfloat)
    (db : list MotifEntry) (k : string) (c : Q) : Prop :=
  (∃ e, e ∈ db ∧ kinase e = k ∧ qualifies fragment min_confidence e = true
        ∧ specificity e = c)
  ∧ (∀ e, e ∈ db → kinase e = k →
          qualifies fragment min_confidence e = true →
          (specificity e <= c)%Q).

(** The same among all the entries named [k] whose pattern occurs in
    the fragment, whatever the threshold. *)
Definition highest_match (fragment : string) (db : list MotifEntry)
    (k : string) (c : Q) : Prop :=
  (∃ e, e ∈ db ∧ kinase e = k ∧ Regex.search (pattern e) fragment = true
        ∧ specificity e = c)
  ∧ (∀ e, e ∈ db → kinase e = k →
          Regex.search (pattern e) fragment = true →
          (specificity e <= c)%Q).
End MotifSpec2.

Module ValidationSpec.
Import Pandas Validation.

(** The sum of [f] over a list, as a Python integer. *)
Definition sum_over {A : Type} (f : A -> nat) (l : list A) : Z :=
  Z.of_nat (sum_list (f <$> l)).

(** The characters that [_normalize_name_for_matching] deletes. *)
Definition deleted_char (c : ascii) : bool :=
  PyStr.mem c "&-_/" || PyStr.isspace c.

(** A lower-case ASCII letter. *)
Definition lower_char (c : ascii) : bool :=
  let n := nat_of_ascii c in ((97 <=? n) && (n <=? 122))%nat.
End ValidationSpec.

Module NormalizationSpec.
Import Pandas PyStrSpec.

(** A row as [normalize_kinase_rows] leaves it: one kinase name,
    stripped, not empty and without comma, and, where the frame has a
    ["Confidence"] column, one stripped confidence without comma. *)
Definition normal_row (has_conf : bool) (row : gmap string cell) : Prop :=
  (∃ k, row !! "Kinase Name" = Some (Str k)
        ∧ free_of (Ascii.eqb ",") k ∧ PyStr.strip k = k ∧ k ≠ "")
  ∧ (has_conf = true →
     ∃ c, row !! "Confidence" = Some (Str c)
          ∧ free_of (Ascii.eqb ",") c ∧ PyStr.strip c = c).

(** The frame of the blank-kinase example: one row whose kinase name
    and confidence are empty. *)
Definition blank_kinase_frame : DataFrame :=
  mkDataFrame ["Motif"; "Kinase Name"; "Confidence"]
    [ {[ "Motif" := Str "RRASL"; "Kinase Name" := Str "";
         "Confidence" := Str "" ]} ].
End NormalizationSpec.

(** ** [Phosphom/validation.py]: the reference loader *)
Module ReferenceLoader.
Import Pandas Validation MotifDb.









End ReferenceLoader.

(** ** [Phosphom/motif_db.py]: cell signaling pathway classification *)
Module CellSignal.
Import MotifDb.

Definition CELL_SIGNAL_CATEGORY_ORDER : list string := [
  "Growth & Metabolism";
  "Stress Response";
  "DNA Damage Response (DDR)";
  "Cell Cycle & Mitosis";
  "Energy Homeostasis";
  "Second Messenger Signaling";
  "Inflammation & Immunity";
  "Multi-functional"
].

Definition TOP_KINASES_N : Z := 5.

(** [c.lower()] on ASCII. *)
Definition lower_ascii (c : ascii) : ascii :=
  let n := nat_of_ascii c in
  if ((65 <=? n) && (n <=? 90))%nat then ascii_of_nat (n + 32) else c.

(** [s.lower()] *)
Fixpoint lower (s : string) : string :=
  match s with
  | EmptyString => EmptyString
  | String c s' => String (lower_ascii c) (lower s')
  end.

(** Normalize kinase name for dictionary look-ups (lowercase, no spaces). *)
Definition _normalize_kinase_key (name : string) : string :=
  lower (PyStr.remove_chars PyStr.isspace name).

(** The dictionary display, entry after entry. *)
Definition CELL_SIGNAL_MAP : PyDict.dict string :=
  foldl (fun d kv => PyDict.set (_normalize_kinase_key kv.1) kv.2 d) [] [
    (* Growth & Metabolism *)
    ("AKT", "Growth & Metabolism");
    ("mTOR", "Growth & Metabolism");
    ("S6K1", "Growth & Metabolism");
    ("SGK1", "Growth & Metabolism");
    ("GSK-3beta", "Growth & Metabolism");
    (* Stress Response *)
    ("Erk", "Stress Response");
    ("RSK", "Stress Response");
    ("p38&MAPK", "Stress Response");
    ("JNK", "Stress Response");
    ("MK2", "Stress Response");
    (* DNA Damage Response *)
    ("ATM&ATR", "DNA Damage Response (DDR)");
    ("DNA-PK", "DNA Damage Response (DDR)");
    ("Chk1", "DNA Damage Response (DDR)");
    ("Chk2", "DNA Damage Response (DDR)");
    ("HIPK2", "DNA Damage Response (DDR)");
    (* Cell Cycle & Mitosis *)
    ("CDK", "Cell Cycle & Mitosis");
    ("PLK1", "Cell Cycle & Mitosis");
    ("Aurora A", "Cell Cycle & Mitosis");
    ("Aurora B", "Cell Cycle & Mitosis");
    ("NEK2", "Cell Cycle & Mitosis");
    ("BUB1", "Cell Cycle & Mitosis");
    (* Energy Homeostasis *)
    ("AMPK", "Energy Homeostasis");
    ("LKB1", "Energy Homeostasis");
    (* Second Messenger Signaling *)
    ("PKA", "Second Messenger Signaling");
    ("PKC", "Second Messenger Signaling");
    ("PKD", "Second Messenger Signaling");
    ("CaMK2", "Second Messenger Signaling");
    (* Inflammation & Immunity *)
    ("IKK", "Inflammation & Immunity");
    (* Multi-functional *)
    ("CK1", "Multi-functional");
    ("CK2", "Multi-functional");
    ("DYRK1A", "Multi-functional")
  ].

(** The category that [build_cell_signal_tables] gives the cell [x] of
    the column ["Kinase Name"]:
    [CELL_SIGNAL_MAP.get(_normalize_kinase_key(x), "Unknown")]. *)
Definition cell_signal_of (x : Pandas.cell) : string :=
  default "Unknown"
    (PyDict.get (_normalize_kinase_key (Pandas.to_str x)) CELL_SIGNAL_MAP).

End CellSignal.

(** ** [Phosphom/extractor.py]: cleaning a motif *)
Module Extractor.

(** [c] is an ASCII digit / an upper-case ASCII letter. *)
Definition is_digit (c : ascii) : bool :=
  let n := nat_of_ascii c in ((48 <=? n) && (n <=? 57))%nat.
Definition is_upper (c : ascii) : bool :=
  let n := nat_of_ascii c in ((65 <=? n) && (n <=? 90))%nat.

(** The number of leading digits of [s]. *)
Fixpoint digit_run (s : string) : nat :=
  match s with
  | String c t => if is_digit c then S (digit_run t) else 0
  | EmptyString => 0
  end.

(** The length of the match of [\(0\.\d+\)] at the start of [s]: the
    digits are taken greedily and a [)] must follow them. *)
Definition match_probability (s : string) : option nat :=
  match s with
  | String "(" (String "0" (String "." t)) =>
      let n := digit_run t in
      if ((1 <=? n)%nat && PyStr.startswith ")" (String.substring n 1 t))%bool
      then Some (3 + n + 1)%nat else None
  | _ => None
  end.

(** The length of the match of [\(1\)] at the start of [s]. *)
Definition match_one (s : string) : option nat :=
  if PyStr.startswith "(1)" s then Some 3%nat else None.

(** [re.sub(pattern, "", s)] for a pattern that matches at least one
    character: the text is scanned from the left; where the pattern
    matches, the match is left out and the scan goes on behind it.
    [skip] counts the characters of the current match still to drop. *)
Fixpoint sub_empty (match_len : string -> option nat) (skip : nat)
    (s : string) : string :=
  match s with
  | EmptyString => EmptyString
  | String c t =>
      match skip with
      | S k => sub_empty match_len k t
      | O =>
          match match_len s with
          | Some (S k) => sub_empty match_len k t
          | _ => String c (sub_empty match_len 0 t)
          end
      end
  end.

(** Remove probability annotations and non-amino-acid characters. *)
Definition clean_motif_sequence (text : string) : string :=
  let text := sub_empty match_probability 0 text in
  let text := sub_empty match_one 0 text in
  let text :=
    PyStr.remove_chars (fun c => negb (is_upper c)) (PyStr.upper text) in
  PyStr.strip text.

(** Two characters that are equal when case is ignored
    ([re.IGNORECASE]). *)
Definition eqb_nocase (a b : ascii) : bool :=
  Ascii.eqb (PyStr.upper_char a) (PyStr.upper_char b).

(** The literal [p] ([re.escape(key)]), case ignored, at the start of
    [s]: what is left of [s] behind it. *)
Fixpoint match_literal (p s : string) : option string :=
  match p, s with
  | EmptyString, _ => Some s
  | String a p', String b s' =>
      if eqb_nocase a b then match_literal p' s' else None
  | String _ _, EmptyString => None
  end.

(** The digits that [\d+] takes at the start of [s], and what it
    leaves. *)
Fixpoint digits (s : string) : string :=
  match s with
  | String c t => if is_digit c then String c (digits t) else EmptyString
  | EmptyString => EmptyString
  end.

Fixpoint after_digits (s : string) : string :=
  match s with
  | String c t => if is_digit c then after_digits t else s
  | EmptyString => EmptyString
  end.

(** [\d+\.\d+] at the start of [s]: the matched text.  Both runs of
    digits are taken greedily, neither is empty, and a [.] must follow
    the first. *)
Definition match_number (s : string) : option string :=
  match after_digits s with
  | String "." frac =>
      if ((1 <=? String.length (digits s))
          && (1 <=? String.length (digits frac)))%nat
      then Some (digits s +:+ String "." (digits frac)) else None
  | _ => None
  end.

(** [re.escape(key) + r":(\d+\.\d+)"] at the start of [s]: group 1. *)
Definition match_scored (key s : string) : option string :=
  match match_literal key s with
  | Some (String ":" rest) => match_number rest
  | _ => None
  end.

(** [score_pat.search(info_text)]: group 1 of the leftmost match. *)
Fixpoint search_scored (key s : string) : option string :=
  match match_scored key s with
  | Some g => Some g
  | None =>
      match s with
      | EmptyString => None
      | String _ s' => search_scored key s'
      end
  end.

(** One turn of the loop over [KINASE_KEYS]. *)
Definition extract_key (info_text : string)
    (found : list string * list string) (key : string)
  : list string * list string :=
  let '(found_kinases, found_scores) := found in
  match search_scored key info_text with
  | Some group1 =>
      if decide (key ∈ found_kinases) then found
      else (found_kinases ++ [key], found_scores ++ [group1])
  | None =>
      if PyStr.contains (PyStr.upper key) (PyStr.upper info_text) then
        if decide (key ∈ found_kinases) then found
        else (found_kinases ++ [key], found_scores ++ [""])
      else found
  end.

(** [found_kinases] and [found_scores] when the loop is left. *)
Definition found_in (info_text : string) : list string * list string :=
  foldl (extract_key info_text) ([], []) MotifDb.KINASE_KEYS.

(** Extract kinase names and confidence scores from an annotation
    string. *)
Definition extract_kinases_from_info (info_text : string) : string * string :=
  let '(found_kinases, found_scores) := found_in info_text in
  (PyStr.join ", " found_kinases, PyStr.join ", " found_scores).

End Extractor.

(** ** [Phosphom/mapping.py]: colouring a sequence paragraph *)
Module Mapping.

(** A highlight colour: [None] or a member of [WD_COLOR_INDEX]. *)
Definition colour : Type := option Z.

(** What the call leaves behind: the paragraph as it was, its new runs
    (text and highlight colour), or an [IndexError]. *)
Inductive outcome : Type :=
| Untouched
| Runs (runs : list (string * colour))
| IndexError.

(** The loop over the residues: [color_map] is what is left of the map
    from the current index on, [runs] the runs added so far. *)
Fixpoint colour_loop (text : string) (color_map : list colour)
    (current_run_text : string) (current_color : colour)
    (runs : list (string * colour)) : outcome :=
  match text with
  | EmptyString =>
      if decide (current_run_text = "") then Runs runs
      else Runs (runs ++ [(current_run_text, current_color)])
  | String c text' =>
      match color_map with
      | [] => IndexError
      | col :: color_map' =>
          if decide (col = current_color)
          then colour_loop text' color_map'
                 (current_run_text +:+ String c "") current_color runs
          else colour_loop text' color_map' (String c "") col
                 (runs ++ [(current_run_text, current_color)])
      end
  end.

(** [apply_colors_to_full_seq] for a paragraph that is there. *)
Definition apply_colors_to_full_seq (text : string) (color_map : list colour)
  : outcome :=
  match color_map with
  | [] => Untouched
  | first :: _ => colour_loop text color_map "" first []
  end.

End Mapping.

Module SiteMatcherSpec.
Import MotifDb.

(** The pair reported for a database entry. *)
Definition hit_of (e : MotifEntry) : string * Q := (kinase e, specificity e).

(** A reported pair reaches the finite threshold [m]. *)
Definition reaches (m : Q) (x : string * Q) : Prop := Qle_bool m x.2 = true.

#[global] Instance reaches_dec (m : Q) (x : string * Q) : Decision (reaches m x).
Proof. unfold reaches. apply _. Defined.
End SiteMatcherSpec.

Module ValidationSpec2.
Import Pandas Validation PyStrSpec.

(** A name that survives the trip through a comma-joined field: it is
    stripped, not empty, and holds neither comma nor semicolon. *)
Definition clean_name (k : string) : Prop :=
  PyStr.strip k = k ∧ k ≠ "" ∧ free_of (fun c => PyStr.mem c ";,") k.

#[global] Instance clean_name_dec (k : string) : Decision (clean_name k).
Proof. unfold clean_name, free_of. apply _. Defined.

End ValidationSpec2.

Module ReferenceLoaderSpec.
Import Pandas Validation ValidationSpec ReferenceLoader PyStrSpec.



End ReferenceLoaderSpec.

Module MappingSpec.
Import Mapping.

(** The text of a paragraph: the texts of its runs, one after the
    other. *)
Definition text_of (runs : list (string * colour)) : string :=
  foldr (fun r acc => r.1 +:+ acc) "" runs.

(** The highlight colour of every character of the paragraph. *)
Definition colours_of (runs : list (string * colour)) : list colour :=
  runs ≫= (fun r => replicate (String.length r.1) r.2).

(** No two neighbouring runs have the same colour. *)
Fixpoint colours_alternate (runs : list (string * colour)) : Prop :=
  match runs with
  | r1 :: (r2 :: _) as rest => r1.2 ≠ r2.2 ∧ colours_alternate rest
  | _ => True
  end.
End MappingSpec.

Module ExtractorSpec.
Import Extractor PyStrSpec.

(** The annotation names the kinase [key]: in the scored form
    [key:0.70], case ignored, or, upper-cased, anywhere in the
    upper-cased text. *)
Definition reported (info_text key : string) : Prop :=
  is_Some (search_scored key info_text)
  ∨ PyStr.contains (PyStr.upper key) (PyStr.upper info_text) = true.

#[global] Instance reported_dec (info_text key : string) :
  Decision (reported info_text key).
Proof. unfold reported. apply _. Defined.

(** The score that goes with a reported kinase: the number behind its
    first scored mention, or nothing. *)
Definition score_of (info_text key : string) : string :=
  default "" (search_scored key info_text).

(** A text made of digits and points. *)
Definition number_text (s : string) : Prop :=
  all_chars (fun c => is_digit c || Ascii.eqb "." c) s = true.
End ExtractorSpec.

(** * Properties *)

(** ** Facts about the string primitives *)
Module PyStrFacts.
Import PyStr PyStrSpec.

Lemma append_cons (c : ascii) (s t : string) :
  String c s +:+ t = String c (s +:+ t).
Proof. reflexivity. Qed.

Lemma append_nil_r (s : string) : s +:+ "" = s.
Proof. induction s as [|c s IH]; [done|]. by rewrite append_cons, IH. Qed.

Lemma append_assoc (s t u : string) : (s +:+ t) +:+ u = s +:+ (t +:+ u).
Proof. induction s as [|c s IH]; [done|]. by rewrite !append_cons, IH. Qed.

Lemma length_append (s t : string) :
  String.length (s +:+ t) = (String.length s + String.length t)%nat.
Proof. induction s as [|c s IH]; [done|]. rewrite append_cons. simpl. lia. Qed.

Lemma startswith_spec (p s : string) :
  startswith p s = true ↔ ∃ post, s = p +:+ post.
Proof.
  revert s. induction p as [|a p IH]; intros s; simpl.
  - split; [eauto|done].
  - destruct s as [|b s].
    + split; [done|]. by intros [post ?].
    + rewrite andb_true_iff, Ascii.eqb_eq, IH. split.
      * intros [-> [post ->]]. by exists post.
      * intros [post Hs]. rewrite append_cons in Hs.
        injection Hs as -> ->. eauto.
Qed.

Lemma contains_spec (p s : string) :
  contains p s = true ↔ substring_of p s.
Proof.
  unfold substring_of. induction s as [|c s IH]; simpl.
  - rewrite orb_false_r, startswith_spec. split.
    + intros [post ->]. by exists "", post.
    + intros [[|? pre] [post Hs]]; [by exists post|done].
  - rewrite orb_true_iff, startswith_spec, IH. split.
    + intros [[post Hs]|(pre & post & ->)].
      * by exists "", post.
      * by exists (String c pre), post.
    + intros ([|a pre] & post & Hs).
      * left. by exists post.
      * right. rewrite append_cons in Hs. injection Hs as -> ->.
        by exists pre, post.
Qed.

Lemma substring_of_length (p s : string) :
  substring_of p s → (String.length p ≤ String.length s)%nat.
Proof. intros (pre & post & ->). rewrite !length_append. lia. Qed.

Lemma contains_len (p s : string) :
  contains p s = true → (len p ≤ len s)%Z.
Proof.
  intros H%contains_spec%substring_of_length. unfold len. lia.
Qed.

(** *** Slices *)

Lemma length_substring (n m : nat) (s : string) :
  String.length (substring n m s) = (m `min` (String.length s - n))%nat.
Proof.
  revert n m. induction s as [|c s IH]; intros [|n] [|m];
    cbn [substring String.length]; rewrite ?IH; lia.
Qed.

Lemma get_substring (n m j : nat) (s : string) :
  (j < m)%nat → String.get j (substring n m s) = String.get (n + j) s.
Proof.
  intros Hj. rewrite (substring_correct1 s n m j Hj). f_equal. lia.
Qed.

Lemma clamp_index_in_range (n i : Z) :
  (0 ≤ i ≤ n)%Z → clamp_index n i = i.
Proof. unfold clamp_index. intros ?. repeat case_match; lia. Qed.

Lemma slice_in_range (s : string) (start stop : Z) :
  (0 ≤ start ≤ stop)%Z → (stop ≤ len s)%Z →
  slice s start stop
  = substring (Z.to_nat start) (Z.to_nat (stop - start)) s.
Proof.
  intros ??. unfold slice. by rewrite !clamp_index_in_range by lia.
Qed.

(** *** Splitting and stripping *)

Lemma split_at_free (sep : ascii → bool) (s : string) :
  Forall (free_of sep) (split_at sep s).
Proof.
  unfold free_of. induction s as [|c s IH]; simpl.
  - by repeat constructor.
  - destruct (sep c) eqn:Hc.
    + by constructor.
    + destruct (split_at sep s) as [|tok toks].
      * repeat constructor. simpl. by rewrite Hc.
      * apply Forall_cons in IH as [Htok Htoks].
        constructor; [|done]. simpl. by rewrite Hc.
Qed.

Lemma split_at_of_free (sep : ascii → bool) (s : string) :
  free_of sep s → split_at sep s = [s].
Proof.
  unfold free_of. induction s as [|c s IH]; simpl; [done|].
  intros [Hc Hs]%andb_true_iff. apply negb_true_iff in Hc.
  by rewrite Hc, IH.
Qed.

Lemma split_at_nonempty (sep : ascii → bool) (s : string) :
  split_at sep s ≠ [].
Proof.
  destruct s as [|c s]; simpl; [done|].
  destruct (sep c); [done|]. by destruct (split_at sep s).
Qed.

Lemma lstrip_all_chars (f : ascii → bool) (s : string) :
  all_chars f s = true → all_chars f (lstrip s) = true.
Proof.
  induction s as [|c s IH]; simpl; [done|].
  intros [Hc Hs]%andb_true_iff. destruct (isspace c); [auto|].
  simpl. by rewrite Hc, Hs.
Qed.

Lemma rstrip_all_chars (f : ascii → bool) (s : string) :
  all_chars f s = true → all_chars f (rstrip s) = true.
Proof.
  induction s as [|c s IH]; simpl; [done|].
  intros [Hc Hs]%andb_true_iff. specialize (IH Hs).
  destruct (rstrip s) as [|d t].
  - destruct (isspace c); simpl; [done|]. by rewrite Hc.
  - simpl in *. by rewrite Hc, IH.
Qed.

Lemma strip_free (sep : ascii → bool) (s : string) :
  free_of sep s → free_of sep (strip s).
Proof. intros ?. by apply rstrip_all_chars, lstrip_all_chars. Qed.

Lemma lstrip_clean_start (s : string) : clean_start (lstrip s).
Proof.
  induction s as [|c s IH]; simpl; [done|].
  by destruct (isspace c) eqn:Hc.
Qed.

Lemma lstrip_of_clean_start (s : string) : clean_start s → lstrip s = s.
Proof. destruct s as [|c s]; simpl; [done|]. by intros ->. Qed.

Lemma rstrip_clean_start (s : string) :
  clean_start s → clean_start (rstrip s).
Proof.
  destruct s as [|c s]; simpl; [done|]. intros Hc.
  destruct (rstrip s); simpl; [by rewrite Hc|done].
Qed.

Lemma rstrip_cons (c : ascii) (s : string) :
  rstrip (String c s)
  = match rstrip s with
    | EmptyString => if isspace c then EmptyString else String c EmptyString
    | t => String c t
    end.
Proof. reflexivity. Qed.

Lemma rstrip_idemp (s : string) : rstrip (rstrip s) = rstrip s.
Proof.
  induction s as [|c s IH]; [done|].
  rewrite rstrip_cons. destruct (rstrip s) as [|d t] eqn:Hr.
  - destruct (isspace c) eqn:Hc; [done|].
    rewrite rstrip_cons. simpl. by rewrite Hc.
  - by rewrite rstrip_cons, IH.
Qed.

Lemma strip_idemp (s : string) : strip (strip s) = strip s.
Proof.
  unfold strip.
  rewrite (lstrip_of_clean_start (rstrip (lstrip s))).
  - apply rstrip_idemp.
  - apply rstrip_clean_start, lstrip_clean_start.
Qed.
End PyStrFacts.

(** ** Facts about insertion-ordered dictionaries *)
Module PyDictFacts.
Import PyDict.

Section dict.
Context {V : Type}.
Implicit Types (d : dict V) (k : string) (v : V).

Lemma get_None d k : get k d = None ↔ k ∉ keys d.
Proof.
  unfold keys. induction d as [|[k' v'] d IH]; simpl.
  - split; [|done]. intros _. apply not_elem_of_nil.
  - rewrite not_elem_of_cons. destruct (String.eqb_spec k' k) as [->|Hk].
    + split; [done|]. by intros [? _].
    + rewrite IH. split; [|by intros [_ ?]].
      intros ?. split; [by intros ->|done].
Qed.

Lemma get_Some_elem_of d k v : get k d = Some v → (k, v) ∈ d.
Proof.
  induction d as [|[k' v'] d IH]; simpl; [done|].
  destruct (String.eqb_spec k' k) as [->|Hk].
  - intros [= ->]. left.
  - intros ?. right. auto.
Qed.

Lemma elem_of_get_Some d k v :
  NoDup (keys d) → (k, v) ∈ d → get k d = Some v.
Proof.
  unfold keys. induction d as [|[k' v'] d IH]; simpl.
  - intros _ ?%elem_of_nil. done.
  - intros [Hk' Hd]%NoDup_cons [[= -> ->]|Hin]%elem_of_cons.
    + by rewrite String.eqb_refl.
    + destruct (String.eqb_spec k' k) as [->|Hk]; [|auto].
      destruct Hk'. apply list_elem_of_fmap. by exists (k, v).
Qed.

Lemma set_absent d k v : k ∉ keys d → set k v d = d ++ [(k, v)].
Proof.
  unfold keys. induction d as [|[k' v'] d IH]; simpl; [done|].
  intros [Hk Hd]%not_elem_of_cons.
  destruct (String.eqb_spec k' k) as [->|_]; [done|]. by rewrite IH.
Qed.

Lemma keys_set_present d k v : k ∈ keys d → keys (set k v d) = keys d.
Proof.
  unfold keys. induction d as [|[k' v'] d IH]; simpl.
  - by intros ?%elem_of_nil.
  - intros Hin. destruct (String.eqb_spec k' k) as [->|Hk]; [done|].
    simpl. f_equal. apply IH. apply elem_of_cons in Hin as [?|?]; done.
Qed.

Lemma get_set d k k' v :
  get k' (set k v d) = if decide (k = k') then Some v else get k' d.
Proof.
  induction d as [|[k0 v0] d IH]; simpl.
  - destruct (String.eqb_spec k k'); by case_decide.
  - destruct (String.eqb_spec k0 k) as [->|Hk0]; simpl.
    + destruct (String.eqb_spec k k'); by case_decide.
    + destruct (String.eqb_spec k0 k') as [->|?]; [|done].
      by rewrite decide_False.
Qed.

Lemma NoDup_keys_set d k v : NoDup (keys d) → NoDup (keys (set k v d)).
Proof.
  intros Hd. destruct (decide (k ∈ keys d)) as [Hin|Hout].
  - by rewrite keys_set_present.
  - rewrite set_absent by done. unfold keys in *. rewrite fmap_app.
    apply NoDup_app. split_and!; [done| |apply NoDup_singleton].
    intros x ? ->%list_elem_of_singleton. done.
Qed.
End dict.

Lemma filter_ne_absent {A : Type} `{EqDecision A} (x : A) (l : list A) :
  x ∉ l → filter (λ y, y ≠ x) l = l.
Proof.
  induction l as [|y l IH]; [done|].
  intros [Hxy Hx]%not_elem_of_cons.
  rewrite filter_cons_True by done. by rewrite IH.
Qed.

Lemma first_seen_NoDup {A : Type} `{EqDecision A} (l : list A) :
  NoDup l → first_seen l = l.
Proof.
  induction l as [|x l IH]; simpl; [done|].
  intros [Hx Hl]%NoDup_cons. by rewrite IH, filter_ne_absent.
Qed.
End PyDictFacts.

(** ** Facts about the stable sort *)
Module PySortFacts.
Import PySort PySortSpec.

Lemma Qltb_lt (x y : Q) : Qltb x y = true ↔ (x < y)%Q.
Proof.
  unfold Qltb. rewrite negb_true_iff, <-not_true_iff_false, Qle_bool_iff.
  split; [apply Qnot_le_lt|apply Qlt_not_le].
Qed.

Lemma Qltb_ge (x y : Q) : Qltb x y = false ↔ (y <= x)%Q.
Proof.
  unfold Qltb. by rewrite negb_false_iff, Qle_bool_iff.
Qed.

Section sorted.
Context {A : Type} (key : A → Q) (pos : A → nat).

Lemma insert_Permutation (x : A) (l : list A) : insert key x l ≡ₚ x :: l.
Proof.
  induction l as [|y l IH]; simpl; [done|].
  destruct (Qltb (key y) (key x)); [|done].
  rewrite IH. apply Permutation_swap.
Qed.

Lemma sorted_Permutation (l : list A) : sorted key l ≡ₚ l.
Proof.
  unfold sorted. induction l as [|x l IH]; simpl; [done|].
  by rewrite insert_Permutation, IH.
Qed.

Lemma lex_key_le (x y : A) : lex key pos x y → (key x <= key y)%Q.
Proof.
  intros [?|[Heq _]]; [by apply Qlt_le_weak|]. rewrite Heq. apply Qle_refl.
Qed.

Lemma insert_lex (x : A) (l : list A) :
  Forall (λ y, pos x < pos y)%nat l →
  StronglySorted (lex key pos) l →
  StronglySorted (lex key pos) (insert key x l).
Proof.
  induction l as [|y l IH]; simpl.
  - intros _ _. by repeat constructor.
  - intros [Hxy Hxl]%Forall_cons [Hyl Hl]%StronglySorted_cons.
    destruct (Qltb (key y) (key x)) eqn:Hlt.
    + apply Qltb_lt in Hlt. apply StronglySorted_cons. split; [|auto].
      rewrite insert_Permutation. constructor; [by left|done].
    + apply Qltb_ge in Hlt.
      assert (∀ z, (pos x < pos z)%nat → (key x <= key z)%Q →
                   lex key pos x z) as Hlex.
      { intros z Hpos [?|?]%Qle_lt_or_eq; [by left|by right]. }
      apply StronglySorted_cons. split; [|by apply StronglySorted_cons].
      constructor; [by apply Hlex|].
      rewrite Forall_forall in Hxl, Hyl |- *. intros z Hz.
      apply Hlex; [auto|].
      eapply Qle_trans; [done|]. eapply lex_key_le; eauto.
Qed.

Lemma sorted_lex (l : list A) :
  StronglySorted (λ x y, pos x < pos y)%nat l →
  StronglySorted (lex key pos) (sorted key l).
Proof.
  unfold sorted. induction l as [|x l IH]; simpl; [constructor|].
  intros [Hx Hl]%StronglySorted_cons. apply insert_lex; [|auto].
  fold (sorted key l). by rewrite sorted_Permutation.
Qed.
End sorted.

Lemma StronglySorted_lookup {A : Type} (R : relation A) (l : list A)
    (i j : nat) (x y : A) :
  StronglySorted R l → (i < j)%nat →
  l !! i = Some x → l !! j = Some y → R x y.
Proof.
  intros Hl. revert i j. induction Hl as [|z l Hl IH Hz]; intros i j Hij.
  - done.
  - destruct i as [|i], j as [|j]; simpl; try lia.
    + intros [= ->] Hy. rewrite Forall_forall in Hz.
      apply Hz. eapply list_elem_of_lookup_2. done.
    + apply IH. lia.
Qed.

Lemma StronglySorted_filter {A : Type} (R : relation A)
    (P : A → Prop) `{∀ x, Decision (P x)} (l : list A) :
  StronglySorted R l → StronglySorted R (filter P l).
Proof.
  induction 1 as [|x l Hl IH Hx]; [constructor|].
  rewrite filter_cons. case_decide; [|done].
  constructor; [done|]. rewrite Forall_forall in Hx |- *.
  intros y [_ ?]%list_elem_of_filter. auto.
Qed.
End PySortFacts.

(** ** The site matcher *)
Module MotifDbFacts.
Import MotifDb MotifSpec MotifSpec2 PyDict PyDictFacts PySortFacts.

Lemma float_ge_mono (x y : Q) (m : pyfloat) :
  float_ge x m = true → (x <= y)%Q → float_ge y m = true.
Proof.
  destruct m as [q| | |]; simpl; try done.
  rewrite !Qle_bool_iff. intros ??. by eapply Qle_trans.
Qed.

Section hits.
Context (fragment : string) (min_confidence : pyfloat).

Abbreviation step := (record_hit fragment min_confidence).
Abbreviation ok := (qualifies fragment min_confidence).
Abbreviation best := (best_of fragment min_confidence).

Lemma record_hit_unqualified (hits : dict Q) (e : MotifEntry) :
  ok e = false → step hits e = hits.
Proof.
  unfold record_hit, qualifies. intros Hq.
  destruct (Regex.search _ _); [|done].
  by destruct (float_ge _ _).
Qed.

(** What a qualifying entry does to [hits]. *)
Lemma record_hit_qualified (hits : dict Q) (e : MotifEntry) :
  ok e = true →
  step hits e
  = match get (kinase e) hits with
    | None => set (kinase e) (specificity e) hits
    | Some old =>
        if PySort.Qltb old (specificity e)
        then set (kinase e) (specificity e) hits else hits
    end.
Proof.
  unfold record_hit, qualifies. by intros [-> ->]%andb_true_iff.
Qed.

Lemma best_of_snoc_keep (db : list MotifEntry) (x : MotifEntry)
    (k : string) (c : Q) :
  best db k c →
  (kinase x = k → ok x = true → (specificity x <= c)%Q) →
  best (db ++ [x]) k c.
Proof.
  intros [(e & He & Hrest) Hmax] Hx. split.
  - exists e. split; [|done]. apply elem_of_app. by left.
  - intros e' [?| ->%list_elem_of_singleton]%elem_of_app; auto.
Qed.

Lemma best_of_snoc_new (db : list MotifEntry) (x : MotifEntry) :
  ok x = true →
  (∀ e, e ∈ db → kinase e = kinase x → ok e = true →
        (specificity e <= specificity x)%Q) →
  best (db ++ [x]) (kinase x) (specificity x).
Proof.
  intros Hx Hmax. split.
  - exists x. split; [|done]. apply elem_of_app. right. left.
  - intros e [?| ->%list_elem_of_singleton]%elem_of_app; auto.
    intros _ _. apply Qle_refl.
Qed.

(** After the loop, [hits] has one entry per kinase with a
    qualifying pattern, holding the best of their scores. *)
Lemma hits_invariant (db : list MotifEntry) :
  let hits := foldl step [] db in
  NoDup (keys hits)
  ∧ (∀ k c, get k hits = Some c → best db k c)
  ∧ (∀ e, e ∈ db → ok e = true → is_Some (get (kinase e) hits)).
Proof.
  induction db as [|x db IH] using rev_ind; simpl.
  { split_and!; [constructor|done|]. by intros e ?%elem_of_nil. }
  rewrite foldl_app. simpl. set (hits := foldl step [] db) in *.
  destruct IH as (Hnd & Hbest & Hall).
  destruct (ok x) eqn:Hx.
  2:{ rewrite record_hit_unqualified by done. split_and!; [done| |].
      - intros k c Hk. apply best_of_snoc_keep; [auto|]. congruence.
      - intros e [?| ->%list_elem_of_singleton]%elem_of_app; [auto|].
        congruence. }
  rewrite record_hit_qualified by done.
  assert (∀ c : Q,
    (∀ e, e ∈ db → kinase e = kinase x → ok e = true →
          (specificity e <= specificity x)%Q) →
    let hits' := set (kinase x) (specificity x) hits in
    NoDup (keys hits')
    ∧ (∀ k c, get k hits' = Some c → best (db ++ [x]) k c)
    ∧ (∀ e, e ∈ db ++ [x] → ok e = true →
            is_Some (get (kinase e) hits'))) as Hset.
  { intros _ Hmax hits'. split_and!.
    - by apply NoDup_keys_set.
    - intros k c. unfold hits'. rewrite get_set. case_decide as Hk.
      + intros [= <-]. subst k. by apply best_of_snoc_new.
      + intros Hget. apply best_of_snoc_keep; [auto|]. done.
    - intros e He Hq. unfold hits'. rewrite get_set. case_decide; [done|].
      apply elem_of_app in He as [?| ->%list_elem_of_singleton]; [auto|done]. }
  destruct (get (kinase x) hits) as [old|] eqn:Hget.
  - destruct (Hbest _ _ Hget) as [_ Hold].
    destruct (PySort.Qltb old (specificity x)) eqn:Hlt.
    + apply Qltb_lt in Hlt. apply (Hset old). intros e ???.
      apply Qlt_le_weak. eapply Qle_lt_trans; [|done]. auto.
    + apply Qltb_ge in Hlt. split_and!; [done| |].
      * intros k c Hk. apply best_of_snoc_keep; [auto|].
        intros <- _. congruence.
      * intros e [?| ->%list_elem_of_singleton]%elem_of_app ?; [auto|].
        by rewrite Hget.
  - apply (Hset 0%Q). intros e He Hk Hq.
    destruct (Hall e He Hq) as [c Hc]. congruence.
Qed.

(** With one pattern per kinase, [hits] lists the qualifying entries
    in database order. *)
Lemma hits_of_distinct (db : list MotifEntry) :
  NoDup (kinase <$> db) →
  foldl step [] db
  = (λ e, (kinase e, specificity e)) <$> filter (λ e, ok e = true) db.
Proof.
  induction db as [|x db IH] using rev_ind; [done|].
  rewrite fmap_app. intros (Hdb & Hx & _)%NoDup_app.
  rewrite foldl_app, filter_app, fmap_app, IH by done. simpl.
  destruct (ok x) eqn:Hq.
  - rewrite filter_cons_True, filter_nil by done.
    rewrite record_hit_qualified by done.
    assert (kinase x ∉ keys ((λ e, (kinase e, specificity e))
                               <$> filter (λ e, ok e = true) db)) as Hout.
    { unfold keys. rewrite <-list_fmap_compose.
      intros (e & He & [_ Hin]%list_elem_of_filter)%list_elem_of_fmap.
      apply (Hx (kinase x)); [|left].
      apply list_elem_of_fmap. by exists e. }
    apply get_None in Hout as Hnone. rewrite Hnone.
    by rewrite set_absent.
  - rewrite filter_cons_False, filter_nil by congruence.
    rewrite record_hit_unqualified by done. by rewrite app_nil_r.
Qed.

Lemma hits_none (db : list MotifEntry) :
  (∀ e, e ∈ db → ok e = false) → foldl step [] db = [].
Proof.
  induction db as [|x db IH] using rev_ind; [done|].
  intros Hall. rewrite foldl_app. simpl. rewrite IH.
  - apply record_hit_unqualified. apply Hall, elem_of_app. right. left.
  - intros e ?. apply Hall, elem_of_app. by left.
Qed.
End hits.
End MotifDbFacts.

Module SiteMatcher.
Import MotifDb MotifSpec MotifSpec2 PyDict PyDictFacts PySortSpec PySortFacts.
Import PyStrSpec PyStrFacts MotifDbFacts.

Lemma MOTIF_DB_distinct : NoDup (kinase <$> MOTIF_DB).
Proof. apply (bool_decide_unpack _). by vm_compute. Qed.

Lemma KINASE_KEYS_eq : KINASE_KEYS = kinase <$> MOTIF_DB.
Proof. apply first_seen_NoDup, MOTIF_DB_distinct. Qed.

Lemma MOTIF_DB_declared_in_order :
  StronglySorted
    (λ e1 e2, declaration_index (kinase e1) < declaration_index (kinase e2))%nat
    MOTIF_DB.
Proof. apply (bool_decide_unpack _). by vm_compute. Qed.

(** The nine scores of the database and the threshold 1.1 are the
    doubles nearest to their decimal literals. *)
Lemma literals_nearest :
  nearest_double (30 # 100) 5404319552844595 54
  ∧ nearest_double (45 # 100) 8106479329266893 54
  ∧ nearest_double (55 # 100) 4953959590107546 53
  ∧ nearest_double (60 # 100) 5404319552844595 53
  ∧ nearest_double (65 # 100) 5854679515581645 53
  ∧ nearest_double (70 # 100) 6305039478318694 53
  ∧ nearest_double (75 # 100) 6755399441055744 53
  ∧ nearest_double (80 # 100) 7205759403792794 53
  ∧ nearest_double (85 # 100) 7656119366529843 53
  ∧ nearest_double (11 # 10) 4953959590107546 52.
Proof. repeat split; by vm_compute. Qed.

Lemma ranked_before_lex (x y : string * Q) :
  lex (λ x : string * Q, - x.2)%Q (λ x, declaration_index x.1) x y
  → ranked_before x y.
Proof.
  unfold lex, ranked_before. intros [Hlt|[Heq Hpos]].
  - left. apply Qopp_lt_compat in Hlt. by rewrite !Qopp_involutive in Hlt.
  - right. split; [|done].
    rewrite <-(Qopp_involutive x.2), <-(Qopp_involutive y.2).
    by rewrite Heq.
Qed.

Lemma best_of_highest_match (fragment : string) (m : pyfloat)
    (db : list MotifEntry) (k : string) (c : Q) :
  best_of fragment m db k c → highest_match fragment db k c.
Proof.
  unfold best_of, highest_match, qualifies.
  intros [(e & He & Hk & [Hs Hge]%andb_true_iff & Hc) Hmax]. split.
  - by exists e.
  - intros e' He' Hk' Hs'.
    destruct (Qlt_le_dec c (specificity e')) as [Hlt|]; [|done].
    apply Hmax; [done..|]. rewrite Hs'. simpl.
    eapply float_ge_mono; [done|]. rewrite Hc. by apply Qlt_le_weak.
Qed.

(** The ranking of the result for any database that names each kinase
    once, [pos] being increasing along the database. *)
Lemma identify_kinases_with_ranked (db : list MotifEntry) (pos : string → nat)
    (full_seq : string) (index : Z) (min_confidence : pyfloat) :
  NoDup (kinase <$> db) →
  StronglySorted (λ e1 e2, pos (kinase e1) < pos (kinase e2))%nat db →
  let fragment := fragment_of full_seq index in
  let result := identify_kinases_with db full_seq index min_confidence in
  NoDup result.*1
  ∧ (∀ k c, (k, c) ∈ result → highest_match fragment db k c)
  ∧ (∀ i j x y, (i < j)%nat →
       result !! i = Some x → result !! j = Some y →
       lex (λ x : string * Q, - x.2)%Q (λ x, pos x.1) x y).
Proof.
  intros Hdb Hpos fragment result. unfold identify_kinases_with in result.
  fold fragment in result.
  set (hits := foldl (record_hit fragment min_confidence) [] db) in *.
  assert (result ≡ₚ hits) as Hperm by apply sorted_Permutation.
  destruct (hits_invariant fragment min_confidence db)
    as (Hnd & Hbest & _). fold hits in Hnd, Hbest.
  split_and!.
  - unfold keys in Hnd. by rewrite Hperm.
  - intros k c Hin. rewrite Hperm in Hin.
    eapply best_of_highest_match, Hbest. by apply elem_of_get_Some.
  - intros i j x y Hij Hx Hy.
    eapply StronglySorted_lookup; [|done..].
    apply sorted_lex. unfold hits. rewrite hits_of_distinct by done.
    eapply StronglySorted_fmap; [|by apply StronglySorted_filter].
    by intros e1 e2.
Qed.

(** C1: the list returned by [identify_kinases] names each kinase at
    most once, with the highest specificity among the patterns of that
    kinase that occur in the window (the score of one entry, never a
    combination of several); it is in descending order of confidence,
    ties in the database's declaration order; and it is a function of
    the inputs. *)
Theorem identify_kinases_ranked
    (full_seq : string) (index : Z) (min_confidence : pyfloat) :
  let fragment := fragment_of full_seq index in
  let result := identify_kinases full_seq index min_confidence in
  NoDup result.*1
  ∧ (∀ k c, (k, c) ∈ result → highest_match fragment MOTIF_DB k c)
  ∧ (∀ i j x y, (i < j)%nat →
       result !! i = Some x → result !! j = Some y → ranked_before x y)
  ∧ (∀ result',
       result' = identify_kinases full_seq index min_confidence →
       result' = result).
Proof.
  unfold identify_kinases.
  pose proof (identify_kinases_with_ranked MOTIF_DB declaration_index
                full_seq index min_confidence MOTIF_DB_distinct
                MOTIF_DB_declared_in_order) as H.
  cbv zeta in H |- *. destruct H as (Hnd & Hbest & Hord).
  split; [exact Hnd|]. split; [exact Hbest|]. split; [|by intros ? ->].
  intros i j x y Hij Hx Hy. apply ranked_before_lex.
  exact (Hord i j x y Hij Hx Hy).
Qed.

(** Every kinase with a pattern that occurs in the window and reaches
    the threshold is reported. *)
Lemma identify_kinases_complete
    (full_seq : string) (index : Z) (min_confidence : pyfloat)
    (e : MotifEntry) :
  e ∈ MOTIF_DB →
  qualifies (fragment_of full_seq index) min_confidence e = true →
  kinase e ∈ (identify_kinases full_seq index min_confidence).*1.
Proof.
  intros He Hq. unfold identify_kinases, identify_kinases_with.
  rewrite sorted_Permutation.
  destruct (hits_invariant (fragment_of full_seq index) min_confidence
              MOTIF_DB) as (_ & _ & Hall).
  destruct (Hall e He Hq) as [c Hc]. apply get_Some_elem_of in Hc.
  apply list_elem_of_fmap. by exists (kinase e, c).
Qed.

Lemma get_in_range (s : string) (n : nat) :
  (n < String.length s)%nat → ∃ c, String.get n s = Some c.
Proof.
  revert n. induction s as [|a s IH]; simpl; [lia|].
  intros [|n] ?; [by eauto|]. apply IH. lia.
Qed.

(** C4: for a site inside the sequence the window is the slice from
    [max(0, index-7)] to [min(len, index+8)]; the two bounds lie inside
    the sequence with the site between them, every character of the
    window is the character of the sequence at the same offset from
    the lower bound, and the result is computed from that window. *)
Theorem identify_kinases_window
    (full_seq : string) (index : Z) (min_confidence : pyfloat) :
  (0 ≤ index < PyStr.len full_seq)%Z →
  let start := Z.max 0 (index - WINDOW_HALF) in
  let stop := Z.min (PyStr.len full_seq) (index + WINDOW_HALF + 1) in
  let fragment :=
    substring (Z.to_nat start) (Z.to_nat (stop - start)) full_seq in
  (0 ≤ start ≤ index)%Z ∧ (index < stop ≤ PyStr.len full_seq)%Z
  ∧ fragment_of full_seq index = fragment
  ∧ PyStr.len fragment = (stop - start)%Z
  ∧ (∀ j : nat, (Z.of_nat j < stop - start)%Z →
       ∃ c, String.get j fragment = Some c
            ∧ String.get (Z.to_nat start + j) full_seq = Some c)
  ∧ identify_kinases full_seq index min_confidence
    = PySort.sorted (λ x, - x.2)%Q
        (foldl (record_hit fragment min_confidence) [] MOTIF_DB).
Proof.
  intros Hidx start stop fragment. unfold WINDOW_HALF in *.
  assert (0 ≤ start ≤ index)%Z by lia.
  assert (index < stop ≤ PyStr.len full_seq)%Z by lia.
  assert (fragment_of full_seq index = fragment) as Hfrag.
  { unfold fragment_of. apply slice_in_range; unfold WINDOW_HALF; lia. }
  assert (PyStr.len fragment = (stop - start)%Z) as Hlen.
  { unfold PyStr.len, fragment in *. rewrite length_substring. lia. }
  split_and!; [lia..|done|done| |].
  - intros j Hj.
    destruct (get_in_range full_seq (Z.to_nat start + j)) as [c Hc].
    { unfold PyStr.len in *. lia. }
    exists c. split; [|done]. unfold fragment.
    rewrite get_substring by lia. done.
  - unfold identify_kinases, identify_kinases_with. by rewrite Hfrag.
Qed.

Lemma identify_kinases_window_witness :
  (0 ≤ 0 < PyStr.len "MARKRRASLPPKQ")%Z
  ∧ fragment_of "MARKRRASLPPKQ" 0 = "MARKRRAS".
Proof.
  assert (0 ≤ 0 < PyStr.len "MARKRRASLPPKQ")%Z as H by (vm_compute; done).
  split; [exact H|].
  exact (proj1 (proj2 (proj2
    (identify_kinases_window "MARKRRASLPPKQ" 0 (Finite 0) H)))).
Defined.

Lemma MOTIF_DB_scores_in_unit_interval :
  Forall (λ e, (0 <= specificity e)%Q ∧ (specificity e <= 1)%Q) MOTIF_DB.
Proof. repeat constructor; by vm_compute. Qed.

Lemma identify_kinases_above_one
    (full_seq : string) (index : Z) (m : Q) :
  (1 < m)%Q → identify_kinases full_seq index (Finite m) = [].
Proof.
  intros Hm. unfold identify_kinases, identify_kinases_with.
  rewrite hits_none; [done|]. intros e He. unfold qualifies.
  apply andb_false_iff. right. simpl.
  apply not_true_iff_false. rewrite Qle_bool_iff.
  pose proof MOTIF_DB_scores_in_unit_interval as Hall.
  rewrite Forall_forall in Hall. destruct (Hall e He) as [_ Hle].
  intros Hge. apply (Qlt_irrefl 1).
  eapply Qlt_le_trans; [done|]. by eapply Qle_trans.
Qed.

(** C8: every specificity of the database lies in [0, 1], and with the
    threshold 1.1 (the double nearest to it) [identify_kinases] returns
    the empty list for every sequence and site index. *)
Theorem identify_kinases_threshold_above_scores :
  Forall (λ e, (0 <= specificity e)%Q ∧ (specificity e <= 1)%Q) MOTIF_DB
  ∧ nearest_double (11 # 10) 4953959590107546 52
  ∧ ∀ (full_seq : string) (index : Z),
      identify_kinases full_seq index (Finite f1_1) = [].
Proof.
  split_and!.
  - apply MOTIF_DB_scores_in_unit_interval.
  - apply literals_nearest.
  - intros. apply identify_kinases_above_one. by vm_compute.
Qed.

(** C9: in "MARKRRASLPPKQ" the residue at index 7 is the S; the window
    around it, clipped at both ends, is the whole sequence; the PKA
    pattern, first in the database with score 0.60, matches "RRAS",
    which lies in the window; and the result for threshold 0 contains
    the pair ("PKA", 0.60). *)
Theorem identify_kinases_pka_scenario :
  let full_seq := "MARKRRASLPPKQ" in
  String.get 7 full_seq = Some "S"%char
  ∧ fragment_of full_seq 7 = full_seq
  ∧ (∃ e, MOTIF_DB !! 0%nat = Some e ∧ kinase e = "PKA"
          ∧ specificity e = f0_60
          ∧ "" ∈ Regex.ends (pattern e) "RRAS")
  ∧ substring_of "RRAS" (fragment_of full_seq 7)
  ∧ nearest_double (60 # 100) 5404319552844595 53
  ∧ ("PKA", f0_60) ∈ identify_kinases full_seq 7 (Finite 0).
Proof.
  split_and!.
  - done.
  - by vm_compute.
  - eexists. split; [done|]. split_and!; [done..|]. vm_compute. left.
  - apply contains_spec. by vm_compute.
  - apply literals_nearest.
  - apply list_elem_of_lookup. exists 6%nat. by vm_compute.
Qed.
End SiteMatcher.

(** ** The validator and the scorer *)
Module ValidationFacts.
Import Pandas Validation ValidationSpec PyStrSpec PyStrFacts.

Lemma window_found_iff (p_motif s : string) :
  window_found p_motif s = true
  ↔ (substring_of p_motif s ∨ substring_of s p_motif)
    ∧ (7 ≤ Z.min (PyStr.len p_motif) (PyStr.len s))%Z.
Proof.
  unfold window_found, _MIN_MATCH_LEN.
  rewrite orb_true_iff, !andb_true_iff, !Z.leb_le, <-!contains_spec.
  split.
  - intros [[Hlen Hin]|[Hlen Hin]]; pose proof (contains_len _ _ Hin);
      (split; [auto|lia]).
  - intros [[Hin|Hin] Hlen]; [left|right]; (split; [lia|done]).
Qed.

Lemma motif_found_iff (p_motif : string) (ref_seqs : list string) :
  motif_found p_motif ref_seqs = true
  ↔ ∃ s, s ∈ ref_seqs
         ∧ (substring_of p_motif s ∨ substring_of s p_motif)
         ∧ (7 ≤ Z.min (PyStr.len p_motif) (PyStr.len s))%Z.
Proof.
  unfold motif_found. rewrite existsb_exists. split.
  - intros (s & Hs%list_elem_of_In & Hf%window_found_iff). by exists s.
  - intros (s & Hs%list_elem_of_In & Hf). exists s.
    by rewrite window_found_iff.
Qed.

Lemma motif_found_short (p_motif : string) (ref_seqs : list string) :
  (PyStr.len p_motif < 7)%Z → motif_found p_motif ref_seqs = false.
Proof.
  intros Hlen. apply not_true_iff_false.
  intros (s & _ & _ & ?)%motif_found_iff. lia.
Qed.

Lemma elem_of_find_kinases (kinase_ref_data : PyDict.dict (list string))
    (p_motif k : string) :
  k ∈ find_kinases kinase_ref_data p_motif
  ↔ ∃ ref_seqs, (k, ref_seqs) ∈ kinase_ref_data
                ∧ motif_found p_motif ref_seqs = true.
Proof.
  unfold find_kinases. rewrite list_elem_of_bind. split.
  - intros ([k' refs] & Hk & Hin). simpl in Hk.
    destruct (motif_found p_motif refs) eqn:Hf.
    + apply list_elem_of_singleton in Hk as ->. by exists refs.
    + by apply elem_of_nil in Hk.
  - intros (refs & Hin & Hf). exists (k, refs). simpl.
    rewrite Hf. split; [left|done].
Qed.

(** C2: a motif is found under a reference kinase exactly when it is
    contained in one of the kinase's windows or contains one of them,
    and the shorter string of that pair has at least 7 characters; a
    motif of fewer than 7 characters, and so one of 4 characters
    against a window of 4, is never found. *)
Theorem motif_found_by_guarded_containment :
  (∀ (kinase_ref_data : PyDict.dict (list string)) (p_motif k : string),
     k ∈ find_kinases kinase_ref_data p_motif
     ↔ ∃ ref_seqs s,
         (k, ref_seqs) ∈ kinase_ref_data ∧ s ∈ ref_seqs
         ∧ (substring_of p_motif s ∨ substring_of s p_motif)
         ∧ (7 ≤ Z.min (PyStr.len p_motif) (PyStr.len s))%Z)
  ∧ (∀ p_motif s : string,
       PyStr.len p_motif = 4%Z → PyStr.len s = 4%Z →
       window_found p_motif s = false)
  ∧ (∀ (kinase_ref_data : PyDict.dict (list string)) (p_motif : string),
       (PyStr.len p_motif < 7)%Z →
       find_kinases kinase_ref_data p_motif = []).
Proof.
  split_and!.
  - intros data p k. rewrite elem_of_find_kinases. split.
    + intros (refs & Hin & (s & Hs)%motif_found_iff). by exists refs, s.
    + intros (refs & s & Hin & Hs). exists refs. split; [done|].
      apply motif_found_iff. by exists s.
  - intros p s Hp Hs. apply not_true_iff_false.
    intros [_ ?]%window_found_iff. lia.
  - intros data p Hp. apply elem_of_nil_inv. intros k.
    rewrite elem_of_find_kinases. intros (refs & _ & Hf).
    by rewrite motif_found_short in Hf.
Qed.

(** *** Kinase names *)

Lemma length_upper (s : string) :
  String.length (PyStr.upper s) = String.length s.
Proof. induction s as [|c s IH]; simpl; [done|]. by rewrite IH. Qed.

Lemma _kinase_names_match_iff (pred actual : string) :
  _kinase_names_match pred actual = true
  ↔ _normalize_name_for_matching pred = _normalize_name_for_matching actual.
Proof. unfold _kinase_names_match. apply String.eqb_eq. Qed.

(** C3: two kinase names match exactly when their normal forms (the
    characters [&], [-], [_], [/] and white space deleted, then upper
    case) are equal; "CK1" matches neither "CK12" nor "CK1alpha",
    "p38&MAPK" matches "p38 mapk" and not "p38"; and a name whose
    normal form lies properly inside the other's never matches it. *)
Theorem kinase_names_match_exact :
  _kinase_names_match "CK1" "CK12" = false
  ∧ _kinase_names_match "p38&MAPK" "p38 mapk" = true
  ∧ _kinase_names_match "p38&MAPK" "p38" = false
  ∧ _kinase_names_match "CK1" "CK1alpha" = false
  ∧ (∀ pred actual : string,
       _kinase_names_match pred actual = true
       ↔ PyStr.upper (PyStr.remove_chars deleted_char pred)
         = PyStr.upper (PyStr.remove_chars deleted_char actual))
  ∧ (∀ pred actual pre post : string,
       _normalize_name_for_matching actual
       = pre +:+ _normalize_name_for_matching pred +:+ post →
       pre ≠ "" ∨ post ≠ "" →
       _kinase_names_match pred actual = false
       ∧ _kinase_names_match actual pred = false).
Proof.
  split_and!; [done..| |].
  - intros pred actual. apply _kinase_names_match_iff.
  - intros pred actual pre post Heq Hne.
    assert (_normalize_name_for_matching pred
            ≠ _normalize_name_for_matching actual) as Hdiff.
    { intros Hsame. apply (f_equal String.length) in Heq.
      rewrite !length_append, <-Hsame in Heq.
      destruct Hne as [Hne|Hne]; [destruct pre|destruct post];
        simpl in Heq; try done; lia. }
    split; apply not_true_iff_false; rewrite _kinase_names_match_iff;
      congruence.
Qed.

(** *** Correctness of a prediction *)

Lemma some_actual_matches_iff (pred : string) (found_kinases : list string) :
  some_actual_matches pred found_kinases = true
  ↔ ∃ actual, actual ∈ found_kinases
              ∧ _kinase_names_match pred actual = true.
Proof.
  induction found_kinases as [|a l IH]; simpl.
  - split; [done|]. by intros (? & ?%elem_of_nil & _).
  - destruct (_kinase_names_match pred a) eqn:Ha.
    + split; [|done]. intros _. exists a. split; [left|done].
    + rewrite IH. split.
      * intros (x & ? & ?). exists x. split; [by right|done].
      * intros (x & [->|?]%elem_of_cons & ?); [congruence|eauto].
Qed.

Lemma check_predictions_iff (p_preds found_kinases : list string) :
  check_predictions false p_preds found_kinases = true
  ↔ ∃ pred actual, pred ∈ p_preds ∧ actual ∈ found_kinases
                   ∧ _kinase_names_match pred actual = true.
Proof.
  induction p_preds as [|p l IH]; simpl.
  - split; [done|]. by intros (? & ? & ?%elem_of_nil & _).
  - destruct (some_actual_matches p found_kinases) eqn:Hp.
    + assert (check_predictions true l found_kinases = true) as ->
        by by destruct l.
      split; [|done]. intros _.
      apply some_actual_matches_iff in Hp as (a & ? & ?).
      exists p, a. split; [left|done].
    + rewrite IH. split.
      * intros (x & a & ? & ?). exists x, a. split; [by right|done].
      * intros (x & a & [->|?]%elem_of_cons & Ha & Hm); [|by eauto].
        assert (some_actual_matches p found_kinases = true)
          by (apply some_actual_matches_iff; eauto).
        congruence.
Qed.

Lemma validate_row_not_found (kinase_ref_data : PyDict.dict (list string))
    (row : gmap string cell) :
  In_PSP (validate_row kinase_ref_data row) = false →
  Correct (validate_row kinase_ref_data row) = false
  ∧ Actual_Kinases_in_PSP (validate_row kinase_ref_data row) = "".
Proof.
  unfold validate_row. simpl.
  destruct (find_kinases _ _) as [|k l]; [done|].
  intros H. apply bool_decide_eq_false in H. simpl in H. lia.
Qed.

Lemma validate_row_correct_found (kinase_ref_data : PyDict.dict (list string))
    (row : gmap string cell) :
  Correct (validate_row kinase_ref_data row) = true →
  In_PSP (validate_row kinase_ref_data row) = true.
Proof.
  intros Hc. destruct (In_PSP _) eqn:Hin; [done|].
  apply validate_row_not_found in Hin as [Hf _]. congruence.
Qed.

Lemma zip_with_fmap_same {A B C : Type} (f : A → B → C) (g : A → B)
    (l : list A) :
  zip_with f l (g <$> l) = (λ x, f x (g x)) <$> l.
Proof. induction l as [|x l IH]; [done|]. csimpl. by f_equal. Qed.

Lemma annotate_lookup (row : gmap string cell) (v : verdict) :
  annotate row v !! "In_PSP" = Some (Bool (In_PSP v))
  ∧ annotate row v !! "Correct" = Some (Bool (Correct v))
  ∧ annotate row v !! "Actual_Kinases_in_PSP"
    = Some (Str (Actual_Kinases_in_PSP v)).
Proof.
  unfold annotate. split_and!.
  - rewrite !lookup_insert_ne by done. apply lookup_insert_eq.
  - rewrite lookup_insert_ne by done. apply lookup_insert_eq.
  - apply lookup_insert_eq.
Qed.

(** C10: in the frame returned by [validate_predictions] a row marked
    correct is marked as found in the reference, a row not found has an
    empty [Actual_Kinases_in_PSP] and is not correct, and the summary
    counts no more correct rows than matched rows. *)
Theorem validate_predictions_correct_implies_in_psp
    (pm_df : DataFrame) (kinase_ref_data : PyDict.dict (list string))
    (final_df : DataFrame) (summary : acc_summary) :
  validate_predictions pm_df kinase_ref_data = Ok (final_df, summary) →
  (∀ row, row ∈ rows final_df →
     row !! "Correct" = Some (Bool true) →
     row !! "In_PSP" = Some (Bool true))
  ∧ (∀ row, row ∈ rows final_df →
       row !! "In_PSP" = Some (Bool false) →
       row !! "Actual_Kinases_in_PSP" = Some (Str "")
       ∧ row !! "Correct" = Some (Bool false))
  ∧ (0 ≤ correct summary ≤ matched_psp summary)%Z
  ∧ (matched_psp summary ≤ total_motifs summary)%Z.
Proof.
  unfold validate_predictions.
  destruct (rows pm_df) as [|r0 rs] eqn:Hrows; [done|].
  rewrite <-Hrows. clear Hrows.
  repeat case_decide; try done. intros [= <- <-]. simpl.
  rewrite zip_with_fmap_same. split_and!.
  - intros row (r & -> & _)%list_elem_of_fmap.
    destruct (annotate_lookup r (validate_row kinase_ref_data r))
      as (-> & -> & _).
    intros [= Hc]. by rewrite validate_row_correct_found.
  - intros row (r & -> & _)%list_elem_of_fmap.
    destruct (annotate_lookup r (validate_row kinase_ref_data r))
      as (-> & -> & ->).
    intros [= Hin]. apply validate_row_not_found in Hin as [-> ->]. done.
  - lia.
  - pose proof (length_filter (λ v, Correct v = true)
      (filter (λ v, In_PSP v = true)
              (validate_row kinase_ref_data <$> rows pm_df))). lia.
  - pose proof (length_filter (λ v, In_PSP v = true)
      (validate_row kinase_ref_data <$> rows pm_df)) as Hle.
    rewrite length_fmap in Hle. lia.
Qed.

Lemma validate_predictions_correct_implies_in_psp_witness :
  let pm_df :=
    mkDataFrame ["Motif"; "Kinase Name"]
      [ {[ "Motif" := Str "RRASLAA"; "Kinase Name" := Str "PKA" ]};
        {[ "Motif" := Str "RRAS"; "Kinase Name" := Str "PKA" ]} ] in
  let kinase_ref_data := [("PKA", ["XXRRASLAAXX"; "RRAS"])] in
  ∃ final_df summary,
    validate_predictions pm_df kinase_ref_data = Ok (final_df, summary)
    ∧ (0 ≤ correct summary ≤ matched_psp summary)%Z
    ∧ (matched_psp summary ≤ total_motifs summary)%Z.
Proof.
  intros pm_df kinase_ref_data.
  destruct (validate_predictions pm_df kinase_ref_data)
    as [[final_df summary]|e] eqn:Hv.
  - exists final_df, summary. split; [done|].
    exact (proj2 (proj2
      (validate_predictions_correct_implies_in_psp _ _ _ _ Hv))).
  - exfalso. vm_compute in Hv. discriminate.
Defined.
End ValidationFacts.

Module ScorerFacts.
Import Pandas Validation ValidationSpec.

Lemma sum_over_cons {A : Type} (f : A → nat) (x : A) (l : list A) :
  sum_over f (x :: l) = (Z.of_nat (f x) + sum_over f l)%Z.
Proof. unfold sum_over. rewrite fmap_cons. simpl. lia. Qed.

Lemma sum_over_nonneg {A : Type} (f : A → nat) (l : list A) :
  (0 ≤ sum_over f l)%Z.
Proof. unfold sum_over. lia. Qed.

Lemma foldl_count_group (groups : list (list (gmap string cell)))
    (t f n : Z) :
  foldl count_group (t, f, n) groups
  = ((t + sum_over (λ g, size (pred_set g ∩ actual_set g)) groups)%Z,
     (f + sum_over (λ g, size (pred_set g ∖ actual_set g)) groups)%Z,
     (n + sum_over (λ g, size (actual_set g ∖ pred_set g)) groups)%Z).
Proof.
  revert t f n. induction groups as [|g groups IH]; intros t f n; simpl.
  - unfold sum_over. simpl. by rewrite !Z.add_0_r.
  - rewrite IH, !sum_over_cons. f_equal; [f_equal|]; lia.
Qed.

Lemma ratio_nonneg (a b : Z) :
  (0 ≤ a)%Z → (0 ≤ b)%Z → (0 <= inject_Z a / inject_Z b)%Q.
Proof.
  intros Ha Hb. apply Qmult_le_0_compat.
  - unfold Qle. simpl. lia.
  - apply Qinv_le_0_compat. unfold Qle. simpl. lia.
Qed.

Lemma precision_metrics_of (t f n : Z) :
  (0 ≤ t)%Z → (0 ≤ f)%Z →
  precision (metrics_of (t, f, n))
  = (if decide (t + f = 0)%Z then 0 else inject_Z t / inject_Z (t + f))%Q.
Proof.
  intros Ht Hf. unfold metrics_of. simpl.
  destruct (Z.ltb_spec 0 (t + f)); case_decide; (done || lia).
Qed.

Lemma recall_metrics_of (t f n : Z) :
  (0 ≤ t)%Z → (0 ≤ n)%Z →
  recall (metrics_of (t, f, n))
  = (if decide (t + n = 0)%Z then 0 else inject_Z t / inject_Z (t + n))%Q.
Proof.
  intros Ht Hn. unfold metrics_of. simpl.
  destruct (Z.ltb_spec 0 (t + n)); case_decide; (done || lia).
Qed.

(** The metrics computed from non-negative totals. *)
Lemma metrics_of_spec (t f n : Z) :
  (0 ≤ t)%Z → (0 ≤ f)%Z → (0 ≤ n)%Z →
  let m := metrics_of (t, f, n) in
  tp m = t ∧ fp m = f ∧ fn m = n
  ∧ precision m
    = (if decide (t + f = 0)%Z then 0 else inject_Z t / inject_Z (t + f))%Q
  ∧ recall m
    = (if decide (t + n = 0)%Z then 0 else inject_Z t / inject_Z (t + n))%Q
  ∧ ((precision m + recall m == 0)%Q → f1_score m = 0%Q)
  ∧ (¬ (precision m + recall m == 0)%Q →
     f1_score m
     = (2 * precision m * recall m / (precision m + recall m))%Q).
Proof.
  intros Ht Hf Hn m.
  pose proof (precision_metrics_of t f n Ht Hf) as Hp.
  pose proof (recall_metrics_of t f n Ht Hn) as Hr. fold m in Hp, Hr.
  assert (0 <= precision m)%Q as Hp0.
  { rewrite Hp. destruct (decide (t + f = 0)%Z); [apply Qle_refl|].
    apply ratio_nonneg; [done|]. by apply Z.add_nonneg_nonneg. }
  assert (0 <= recall m)%Q as Hr0.
  { rewrite Hr. destruct (decide (t + n = 0)%Z); [apply Qle_refl|].
    apply ratio_nonneg; [done|]. by apply Z.add_nonneg_nonneg. }
  split_and!; [done..| |].
  - intros Hz. change (f1_score m) with
      (if PySort.Qltb 0 (precision m + recall m)
       then (2 * precision m * recall m / (precision m + recall m))%Q
       else 0%Q).
    destruct (PySort.Qltb 0 (precision m + recall m)) eqn:Hlt; [|done].
    apply PySortFacts.Qltb_lt in Hlt. rewrite Hz in Hlt.
    by apply Qlt_irrefl in Hlt.
  - intros Hnz. change (f1_score m) with
      (if PySort.Qltb 0 (precision m + recall m)
       then (2 * precision m * recall m / (precision m + recall m))%Q
       else 0%Q).
    destruct (PySort.Qltb 0 (precision m + recall m)) eqn:Hlt; [done|].
    apply PySortFacts.Qltb_ge in Hlt. destruct Hnz.
    apply Qle_antisym; [done|].
    rewrite <-(Qplus_0_r 0). by apply Qplus_le_compat.
Qed.

Lemma scenario_sizes :
  size (({[ "PKA" ]} : gset string) ∩ {[ "PKA"; "CK2" ]}) = 1%nat
  ∧ size (({[ "PKA" ]} : gset string) ∖ {[ "PKA"; "CK2" ]}) = 0%nat
  ∧ size (({[ "PKA"; "CK2" ]} : gset string) ∖ {[ "PKA" ]}) = 1%nat.
Proof. split_and!; by vm_compute. Qed.

(** C5: [calculate_f1_metrics] adds up, over the motif groups, the
    sizes of predicted ∩ actual, predicted − actual and actual −
    predicted, and derives precision, recall and F1 from the three
    totals, each being 0 when its denominator is 0; one group with
    predicted {PKA} and actual {PKA, CK2} gives tp = 1, fp = 0, fn = 1,
    precision 1, recall 1/2 and an F1 within 0.001 of 0.667. *)
Theorem calculate_f1_metrics_micro_average (df : DataFrame) (m : metrics) :
  calculate_f1_metrics df = Ok m →
  let groups := (groupby "Motif" (rows df)).*2 in
  tp m = sum_over (λ g, size (pred_set g ∩ actual_set g)) groups
  ∧ fp m = sum_over (λ g, size (pred_set g ∖ actual_set g)) groups
  ∧ fn m = sum_over (λ g, size (actual_set g ∖ pred_set g)) groups
  ∧ precision m
    = (if decide (tp m + fp m = 0)%Z then 0
       else inject_Z (tp m) / inject_Z (tp m + fp m))%Q
  ∧ recall m
    = (if decide (tp m + fn m = 0)%Z then 0
       else inject_Z (tp m) / inject_Z (tp m + fn m))%Q
  ∧ ((precision m + recall m == 0)%Q → f1_score m = 0%Q)
  ∧ (¬ (precision m + recall m == 0)%Q →
     f1_score m
     = (2 * precision m * recall m / (precision m + recall m))%Q)
  ∧ (∀ g, groups = [g] →
       pred_set g = {[ "PKA" ]} → actual_set g = {[ "PKA"; "CK2" ]} →
       tp m = 1%Z ∧ fp m = 0%Z ∧ fn m = 1%Z
       ∧ (precision m == 1)%Q ∧ (recall m == 1 # 2)%Q
       ∧ (Qabs (f1_score m - (667 # 1000)) < 1 # 1000)%Q).
Proof.
  intros Hm groups.
  assert (m = metrics_of
                (sum_over (λ g, size (pred_set g ∩ actual_set g)) groups,
                 sum_over (λ g, size (pred_set g ∖ actual_set g)) groups,
                 sum_over (λ g, size (actual_set g ∖ pred_set g)) groups))
    as ->.
  { unfold calculate_f1_metrics in Hm. fold groups in Hm.
    case_decide; [|done]. destruct groups as [|g gs] eqn:Hg.
    - by injection Hm as <-.
    - repeat case_decide; try done. injection Hm as <-.
      rewrite foldl_count_group, !sum_over_cons.
      by f_equal. }
  destruct (metrics_of_spec
              (sum_over (λ g, size (pred_set g ∩ actual_set g)) groups)
              (sum_over (λ g, size (pred_set g ∖ actual_set g)) groups)
              (sum_over (λ g, size (actual_set g ∖ pred_set g)) groups))
    as (Ht & Hf & Hn & Hp & Hr & Hz & Hnz); [apply sum_over_nonneg..|].
  split_and!; [done..| | |done|done|].
  - by rewrite Ht, Hf.
  - by rewrite Ht, Hn.
  - intros g -> Hpred Hact. rewrite !sum_over_cons, Hpred, Hact.
    destruct scenario_sizes as (-> & -> & ->). by vm_compute.
Qed.

Lemma calculate_f1_metrics_micro_average_witness :
  let df :=
    mkDataFrame ["Motif"; "Kinase Name"; "Actual_Kinases_in_PSP"]
      [ {[ "Motif" := Str "RRASL"; "Kinase Name" := Str "PKA";
           "Actual_Kinases_in_PSP" := Str "PKA, CK2" ]} ] in
  let m := metrics_of (1, 0, 1)%Z in
  calculate_f1_metrics df = Ok m
  ∧ tp m = 1%Z ∧ fp m = 0%Z ∧ fn m = 1%Z
  ∧ (precision m == 1)%Q ∧ (recall m == 1 # 2)%Q
  ∧ (Qabs (f1_score m - (667 # 1000)) < 1 # 1000)%Q.
Proof.
  intros df m.
  assert (calculate_f1_metrics df = Ok m) as Hm by (vm_compute; reflexivity).
  split; [exact Hm|].
  refine (proj2 (proj2 (proj2 (proj2 (proj2 (proj2 (proj2
    (calculate_f1_metrics_micro_average df m Hm))))))) (rows df) _ _ _);
    vm_compute; reflexivity.
Defined.
End ScorerFacts.

(** ** The record normaliser *)
Module NormalizationFacts.
Import Pandas Normalization NormalizationSpec PyStrSpec PyStrFacts.

(** *** [drop_duplicates] *)

Lemma drop_duplicates_from_sub {K : Type} `{EqDecision K}
    (key : gmap string cell → K) (seen : list K)
    (rs : list (gmap string cell)) (r : gmap string cell) :
  r ∈ drop_duplicates_from key seen rs → r ∈ rs ∧ key r ∉ seen.
Proof.
  revert seen. induction rs as [|x rs IH]; intros seen; simpl.
  - by intros ?%elem_of_nil.
  - case_decide as Hx.
    + intros [??]%IH. split; [by right|done].
    + intros [->|[? Hr]%IH]%elem_of_cons.
      * split; [left|done].
      * split; [by right|]. by apply not_elem_of_cons in Hr as [_ ?].
Qed.

Lemma drop_duplicates_from_NoDup {K : Type} `{EqDecision K}
    (key : gmap string cell → K) (seen : list K)
    (rs : list (gmap string cell)) :
  NoDup (key <$> drop_duplicates_from key seen rs).
Proof.
  revert seen. induction rs as [|x rs IH]; intros seen; simpl.
  - constructor.
  - case_decide; [apply IH|]. rewrite fmap_cons. constructor; [|apply IH].
    intros (r & Hk & [_ Hr]%drop_duplicates_from_sub)%list_elem_of_fmap.
    apply Hr. rewrite <-Hk. left.
Qed.

Lemma drop_duplicates_from_id {K : Type} `{EqDecision K}
    (key : gmap string cell → K) (seen : list K)
    (rs : list (gmap string cell)) :
  NoDup (key <$> rs) → (∀ r, r ∈ rs → key r ∉ seen) →
  drop_duplicates_from key seen rs = rs.
Proof.
  revert seen. induction rs as [|x rs IH]; intros seen; [done|].
  rewrite fmap_cons. simpl. intros [Hx Hrs]%NoDup_cons Hseen.
  rewrite decide_False by (apply Hseen; left). f_equal.
  apply IH; [done|]. intros r Hr. apply not_elem_of_cons. split.
  - intros Heq. apply Hx. rewrite <-Heq. apply list_elem_of_fmap. eauto.
  - apply Hseen. by right.
Qed.

(** *** Rows *)

Lemma at_lookup (row : gmap string cell) (label : string) (c : cell) :
  row !! label = Some c → at_ row label = c.
Proof. unfold at_. by intros ->. Qed.

Lemma at_insert_eq (row : gmap string cell) (label : string) (c : cell) :
  at_ (<[label := c]> row) label = c.
Proof. unfold at_. by rewrite lookup_insert_eq. Qed.

Lemma at_insert_ne (row : gmap string cell) (label label' : string)
    (c : cell) :
  label ≠ label' → at_ (<[label := c]> row) label' = at_ row label'.
Proof. intros ?. unfold at_. by rewrite lookup_insert_ne. Qed.

Lemma split_cell_free (c : cell) (k : string) :
  k ∈ split_cell c → free_of (Ascii.eqb ",") k.
Proof.
  unfold split_cell, PyStr.split. intros Hk.
  pose proof (split_at_free (Ascii.eqb ",") (to_str (fillna "" c))) as Hall.
  rewrite Forall_forall in Hall. auto.
Qed.

Lemma split_cell_single (k : string) :
  free_of (Ascii.eqb ",") k → split_cell (Str k) = [k].
Proof. intros ?. unfold split_cell, PyStr.split. by apply split_at_of_free. Qed.

Lemma empty_free (sep : ascii → bool) : free_of sep "".
Proof. done. Qed.

Lemma _align_free (k_list c_list : list string) (c : string) :
  Forall (free_of (Ascii.eqb ",")) c_list →
  c ∈ (_align k_list c_list).2 → free_of (Ascii.eqb ",") c.
Proof.
  unfold _align. simpl.
  intros Hall (i & Hc%list_elem_of_lookup_2 & _)%elem_of_take.
  apply elem_of_app in Hc as [Hc|Hc].
  - rewrite Forall_forall in Hall. auto.
  - apply elem_of_replicate in Hc as [-> _]. apply empty_free.
Qed.

Lemma _align_single (k c : string) : _align [k] [c] = ([k], [c]).
Proof. done. Qed.

(** The rows left by [tidy] after either way of exploding are normal. *)
Lemma explode_aligned_normal (row r : gmap string cell) :
  r ∈ explode_aligned row →
  at_ (strip_kinase r) "Kinase Name" ≠ Str "" →
  normal_row true (strip_kinase r).
Proof.
  unfold explode_aligned.
  destruct (_align _ _) as [k_list c_list] eqn:Halign.
  intros ([k c] & -> & Hkc)%list_elem_of_fmap. simpl.
  assert (k ∈ k_list ∧ c ∈ c_list) as [Hk Hc].
  { split; [eapply elem_of_zip_l|eapply elem_of_zip_r]; exact Hkc. }
  assert (k_list = split_cell (at_ row "Kinase Name")) as ->
    by by injection Halign.
  assert (free_of (Ascii.eqb ",") c) as Hcfree.
  { eapply (_align_free (split_cell (at_ row "Kinase Name"))
                        (split_cell (at_ row "Confidence"))).
    - apply Forall_forall. intros ?. apply split_cell_free.
    - by rewrite Halign. }
  unfold strip_kinase.
  rewrite (at_insert_ne _ "Confidence" "Kinase Name") by done.
  rewrite !at_insert_eq. simpl. intros Hne. split.
  - exists (PyStr.strip k). rewrite lookup_insert_eq. split_and!.
    + done.
    + by eapply strip_free, split_cell_free.
    + apply strip_idemp.
    + congruence.
  - intros _. exists (PyStr.strip c).
    rewrite lookup_insert_ne, lookup_insert_eq by done. split_and!.
    + done.
    + by apply strip_free.
    + apply strip_idemp.
Qed.

Lemma explode_kinase_normal (row r : gmap string cell) :
  r ∈ explode_kinase row →
  at_ (strip_kinase r) "Kinase Name" ≠ Str "" →
  normal_row false (strip_kinase r).
Proof.
  unfold explode_kinase. intros (k & -> & Hk)%list_elem_of_fmap.
  unfold strip_kinase. rewrite !at_insert_eq. simpl.
  intros Hne. split; [|done].
  exists (PyStr.strip k). rewrite lookup_insert_eq. split_and!.
  - done.
  - by eapply strip_free, split_cell_free.
  - apply strip_idemp.
  - congruence.
Qed.

(** A normal row is left as it is by every step. *)
Lemma normal_row_explode_aligned (row : gmap string cell) :
  normal_row true row → explode_aligned row = [row].
Proof.
  intros [(k & Hk & Hkfree & Hkstrip & _) Hconf].
  destruct (Hconf eq_refl) as (c & Hc & Hcfree & Hcstrip).
  unfold explode_aligned.
  rewrite (at_lookup _ _ _ Hk), (at_lookup _ _ _ Hc).
  rewrite !split_cell_single, _align_single by done. simpl.
  rewrite Hcstrip. f_equal.
  rewrite (insert_id row "Kinase Name") by done. by apply insert_id.
Qed.

Lemma normal_row_explode_kinase (has_conf : bool) (row : gmap string cell) :
  normal_row has_conf row → explode_kinase row = [row].
Proof.
  intros [(k & Hk & Hkfree & Hkstrip & _) _]. unfold explode_kinase.
  rewrite (at_lookup _ _ _ Hk), split_cell_single by done. simpl.
  f_equal. by apply insert_id.
Qed.

Lemma normal_row_strip_kinase (has_conf : bool) (row : gmap string cell) :
  normal_row has_conf row →
  strip_kinase row = row ∧ at_ row "Kinase Name" ≠ Str "".
Proof.
  intros [(k & Hk & Hkfree & Hkstrip & Hne) _]. unfold strip_kinase.
  rewrite (at_lookup _ _ _ Hk). simpl. rewrite Hkstrip. split.
  - by apply insert_id.
  - congruence.
Qed.

Lemma tidy_normal (has_conf : bool)
    (exploded : list (gmap string cell)) :
  (∀ r, r ∈ exploded →
        at_ (strip_kinase r) "Kinase Name" ≠ Str "" →
        normal_row has_conf (strip_kinase r)) →
  Forall (normal_row has_conf) (tidy exploded)
  ∧ NoDup (motif_kinase <$> tidy exploded).
Proof.
  intros Hall. unfold tidy, drop_duplicates. split.
  - apply Forall_forall.
    intros r [[Hne (r0 & -> & Hr0)%list_elem_of_fmap]%list_elem_of_filter _]
      %drop_duplicates_from_sub.
    auto.
  - apply drop_duplicates_from_NoDup.
Qed.

Lemma filter_all {A : Type} (P : A → Prop) `{∀ x, Decision (P x)}
    (l : list A) :
  Forall P l → filter P l = l.
Proof.
  induction 1 as [|x l Hx Hl IH]; [done|].
  by rewrite filter_cons_True, IH.
Qed.

Lemma bind_singletons {A : Type} (f : A → list A) (l : list A) :
  Forall (λ x, f x = [x]) l → l ≫= f = l.
Proof.
  induction 1 as [|x l Hx Hl IH]; [done|]. csimpl. by rewrite Hx, IH.
Qed.

Lemma tidy_of_normal (has_conf : bool) (rs : list (gmap string cell)) :
  Forall (normal_row has_conf) rs → NoDup (motif_kinase <$> rs) →
  tidy rs = rs.
Proof.
  intros Hall Hnd. unfold tidy, drop_duplicates.
  assert (strip_kinase <$> rs = rs) as ->.
  { induction Hall as [|r rs Hr Hrs IH]; [done|]. csimpl.
    rewrite fmap_cons in Hnd. apply NoDup_cons in Hnd as [_ Hnd].
    rewrite IH by done. f_equal. by eapply normal_row_strip_kinase. }
  rewrite filter_all.
  2:{ eapply Forall_impl; [done|]. intros r Hr.
      by eapply normal_row_strip_kinase. }
  apply drop_duplicates_from_id; [done|]. intros r _. apply not_elem_of_nil.
Qed.

(** *** The whole function *)

(** What a successful call returns: the columns of the input, normal
    rows, and no two rows with the same motif and kinase. *)
Lemma normalize_kinase_rows_normal (df out : DataFrame) :
  normalize_kinase_rows df = Ok out →
  columns out = columns df
  ∧ Forall (normal_row (bool_decide ("Confidence" ∈ columns df))) (rows out)
  ∧ NoDup (motif_kinase <$> rows out).
Proof.
  unfold normalize_kinase_rows. case_decide as Hreq; [|done].
  case_decide as Hconf.
  - destruct (rows df) as [|r0 rs] eqn:Hrows; [done|]. rewrite <-Hrows.
    intros [= <-]. simpl. split; [done|].
    rewrite bool_decide_eq_true_2 by done. apply tidy_normal.
    intros r (row & Hr & _)%list_elem_of_bind. by eapply explode_aligned_normal.
  - intros [= <-]. simpl. split; [done|].
    rewrite bool_decide_eq_false_2 by done. apply tidy_normal.
    intros r (row & Hr & _)%list_elem_of_bind. by eapply explode_kinase_normal.
Qed.

(** Normalising the result of a call again gives the same table,
    provided the second call gets past the alignment: the table has
    rows left or no ["Confidence"] column. *)
Lemma normalize_kinase_rows_idempotent (df out : DataFrame) :
  normalize_kinase_rows df = Ok out →
  rows out ≠ [] ∨ "Confidence" ∉ columns df →
  normalize_kinase_rows out = Ok out.
Proof.
  intros Hout Hcase.
  destruct (normalize_kinase_rows_normal df out Hout) as (Hcols & Hrows & Hnd).
  assert (required ∖ list_to_set (columns df) = (∅ : gset string)) as Hreq.
  { unfold normalize_kinase_rows in Hout. by case_decide. }
  destruct out as [cols rs]. simpl in *. subst cols.
  unfold normalize_kinase_rows. simpl.
  rewrite decide_True by done. case_decide as Hconf.
  - rewrite bool_decide_eq_true_2 in Hrows by done.
    destruct rs as [|r0 rs'] eqn:Hrs; [by destruct Hcase|]. rewrite <-Hrs in *.
    do 2 f_equal. rewrite bind_singletons.
    + by eapply tidy_of_normal.
    + eapply Forall_impl; [done|]. apply normal_row_explode_aligned.
  - do 2 f_equal. rewrite bind_singletons.
    + by eapply tidy_of_normal.
    + eapply Forall_impl; [done|]. apply normal_row_explode_kinase.
Qed.

Lemma normalize_kinase_rows_idempotent_witness :
  let df :=
    mkDataFrame ["Motif"; "Kinase Name"; "Confidence"]
      [ {[ "Motif" := Str "RRASL"; "Kinase Name" := Str "PKA, AKT ,,PKA";
           "Confidence" := Str "0.60, 0.85" ]} ] in
  let out :=
    mkDataFrame ["Motif"; "Kinase Name"; "Confidence"]
      [ {[ "Motif" := Str "RRASL"; "Kinase Name" := Str "PKA";
           "Confidence" := Str "0.60" ]};
        {[ "Motif" := Str "RRASL"; "Kinase Name" := Str "AKT";
           "Confidence" := Str "0.85" ]} ] in
  normalize_kinase_rows df = Ok out ∧ normalize_kinase_rows out = Ok out.
Proof.
  intros df out.
  assert (normalize_kinase_rows df = Ok out) as Hout
    by (vm_compute; reflexivity).
  split; [exact Hout|].
  apply (normalize_kinase_rows_idempotent df out Hout). by left.
Defined.

(** C6 fails on the code: the table with one row whose kinase name is
    blank normalises to a table without rows that keeps the
    ["Confidence"] column, and normalising that table again raises
    [KeyError(0)] instead of returning it. *)
Theorem normalize_kinase_rows_blank_not_idempotent :
  ∃ out,
    normalize_kinase_rows blank_kinase_frame = Ok out
    ∧ columns out = ["Motif"; "Kinase Name"; "Confidence"]
    ∧ rows out = []
    ∧ normalize_kinase_rows out = Err (KeyError "0").
Proof.
  exists (mkDataFrame ["Motif"; "Kinase Name"; "Confidence"] []).
  split_and!; [by vm_compute|done|done|by vm_compute].
Qed.

Lemma missing_columns_iff (df : DataFrame) (c : string) :
  c ∈ required ∖ list_to_set (C := gset string) (columns df)
  ↔ (c = "Kinase Name" ∨ c = "Motif") ∧ c ∉ columns df.
Proof. unfold required. set_solver. Qed.

(** C7: when the ["Kinase Name"] or the ["Motif"] column is absent,
    [normalize_kinase_rows] raises the error that names the missing
    required columns, whatever the rows are, and returns no table. *)
Theorem normalize_kinase_rows_missing_columns (df : DataFrame) :
  "Kinase Name" ∉ columns df ∨ "Motif" ∉ columns df →
  ∃ missing : gset string,
    normalize_kinase_rows df = Err (ValueError_missing_columns missing)
    ∧ missing ≠ ∅
    ∧ (∀ c, c ∈ missing
            ↔ (c = "Kinase Name" ∨ c = "Motif") ∧ c ∉ columns df)
    ∧ ∀ out, normalize_kinase_rows df ≠ Ok out.
Proof.
  intros Habsent.
  assert (required ∖ list_to_set (columns df) ≠ (∅ : gset string)) as Hne.
  { intros Hempty.
    assert (∀ c, c ∉ required ∖ list_to_set (C := gset string) (columns df))
      as Hnone by (intros c; rewrite Hempty; set_solver).
    destruct Habsent as [Hk|Hm].
    - apply (Hnone "Kinase Name"), missing_columns_iff. auto.
    - apply (Hnone "Motif"), missing_columns_iff. auto. }
  exists (required ∖ list_to_set (columns df)).
  unfold normalize_kinase_rows. rewrite decide_False by done.
  split_and!; [done|done|apply missing_columns_iff|done].
Qed.

Lemma normalize_kinase_rows_missing_columns_witness :
  ∃ missing : gset string,
    normalize_kinase_rows (mkDataFrame ["Motif"; "Confidence"] [])
    = Err (ValueError_missing_columns missing)
    ∧ "Kinase Name" ∈ missing.
Proof.
  destruct (normalize_kinase_rows_missing_columns
              (mkDataFrame ["Motif"; "Confidence"] []))
    as (missing & Herr & _ & Hin & _).
  - left. simpl. by apply (bool_decide_unpack _).
  - exists missing. split; [exact Herr|]. apply Hin. split; [by left|].
    simpl. by apply (bool_decide_unpack _).
Defined.

(** With both required columns present the call does not raise that
    error. *)
Lemma normalize_kinase_rows_columns_present (df : DataFrame) :
  "Kinase Name" ∈ columns df → "Motif" ∈ columns df →
  ∀ missing,
    normalize_kinase_rows df ≠ Err (ValueError_missing_columns missing).
Proof.
  intros Hk Hm missing. unfold normalize_kinase_rows.
  rewrite decide_True.
  - case_decide; [by destruct (rows df)|done].
  - apply set_eq. intros c. rewrite missing_columns_iff.
    split; [|set_solver]. intros [[->| ->] ?]; done.
Qed.
End NormalizationFacts.

(** ** Further properties of the site matcher *)
Module SiteMatcherMore.
Import MotifDb MotifSpec MotifSpec2 SiteMatcherSpec.
Import PyDict PyDictFacts PySort PySortSpec PySortFacts.
Import PyStrSpec PyStrFacts MotifDbFacts.

Section sorted.
Context {A : Type} (key : A → Q).

Lemma insert_ascending (x : A) (l : list A) :
  StronglySorted (λ a b, key a <= key b)%Q l →
  StronglySorted (λ a b, key a <= key b)%Q (insert key x l).
Proof.
  induction l as [|y l IH]; simpl.
  - intros _. by repeat constructor.
  - intros [Hy Hl]%StronglySorted_cons.
    destruct (Qltb (key y) (key x)) eqn:Hlt.
    + apply Qltb_lt in Hlt. apply StronglySorted_cons. split; [|auto].
      rewrite insert_Permutation. constructor; [by apply Qlt_le_weak|done].
    + apply Qltb_ge in Hlt. apply StronglySorted_cons.
      split; [|by apply StronglySorted_cons].
      constructor; [done|]. eapply Forall_impl; [done|].
      intros z Hz. simpl in Hz. by eapply Qle_trans.
Qed.

Lemma sorted_ascending (l : list A) :
  StronglySorted (λ a b, key a <= key b)%Q (sorted key l).
Proof.
  unfold sorted. induction l as [|x l IH]; simpl; [constructor|].
  by apply insert_ascending.
Qed.

(** Filtering commutes with an insertion into a sorted list. *)
Lemma filter_insert (P : A → Prop) `{∀ x, Decision (P x)}
    (x : A) (l : list A) :
  StronglySorted (λ a b, key a <= key b)%Q l →
  filter P (insert key x l)
  = if decide (P x) then insert key x (filter P l) else filter P l.
Proof.
  induction l as [|y l IH]; simpl.
  - intros _. rewrite filter_cons, filter_nil. by case_decide.
  - intros [Hy Hl]%StronglySorted_cons.
    destruct (Qltb (key y) (key x)) eqn:Hlt.
    + rewrite !filter_cons, IH by done.
      destruct (decide (P y)), (decide (P x)); simpl; by rewrite ?Hlt.
    + rewrite (filter_cons _ x). destruct (decide (P x)) as [Hx|Hx]; [|done].
      destruct (filter P (y :: l)) as [|z zs] eqn:Hf; [done|]. simpl.
      assert (z ∈ y :: l) as Hz.
      { eapply (proj1 (list_elem_of_filter P (y :: l) z)).
        rewrite Hf. left. }
      assert (Qltb (key z) (key x) = false) as ->; [|done].
      apply Qltb_ge. apply Qltb_ge in Hlt.
      apply elem_of_cons in Hz as [->|Hz]; [done|].
      rewrite Forall_forall in Hy. eapply Qle_trans; [done|]. by apply Hy.
Qed.

Lemma filter_sorted (P : A → Prop) `{∀ x, Decision (P x)} (l : list A) :
  filter P (sorted key l) = sorted key (filter P l).
Proof.
  induction l as [|x l IH]; [done|].
  change (sorted key (x :: l)) with (insert key x (sorted key l)).
  rewrite filter_insert by apply sorted_ascending.
  rewrite filter_cons, IH. by case_decide.
Qed.
End sorted.

Lemma float_ge_finite (c m : Q) : float_ge c (Finite m) = Qle_bool m c.
Proof. done. Qed.

(** The result for a database that names each kinase once: the
    qualifying entries, sorted. *)
Lemma identify_kinases_with_distinct (db : list MotifEntry)
    (full_seq : string) (index : Z) (min_confidence : pyfloat) :
  NoDup (kinase <$> db) →
  identify_kinases_with db full_seq index min_confidence
  = sorted (λ x, - x.2)%Q
      (hit_of <$> filter (λ e, qualifies (fragment_of full_seq index)
                                 min_confidence e = true) db).
Proof.
  intros Hdb. unfold identify_kinases_with. by rewrite hits_of_distinct.
Qed.

Lemma identify_kinases_with_elem_of (db : list MotifEntry)
    (full_seq : string) (index : Z) (min_confidence : pyfloat)
    (k : string) (c : Q) :
  NoDup (kinase <$> db) →
  (k, c) ∈ identify_kinases_with db full_seq index min_confidence
  ↔ ∃ e, e ∈ db ∧ kinase e = k ∧ specificity e = c
         ∧ Regex.search (pattern e) (fragment_of full_seq index) = true
         ∧ float_ge c min_confidence = true.
Proof.
  intros Hdb. rewrite identify_kinases_with_distinct by done.
  rewrite sorted_Permutation, list_elem_of_fmap. unfold hit_of, qualifies.
  split.
  - intros (e & [= -> ->] & [[??]%andb_true_iff ?]%list_elem_of_filter).
    by exists e.
  - intros (e & He & <- & <- & Hs & Hge). exists e. split; [done|].
    apply list_elem_of_filter. split; [|done]. by rewrite Hs, Hge.
Qed.

(** X1: a pair is reported exactly when it is the name and score of a
    database entry whose pattern occurs in the window and whose score
    reaches the threshold. *)
Theorem identify_kinases_reports_exactly
    (full_seq : string) (index : Z) (min_confidence : pyfloat)
    (k : string) (c : Q) :
  (k, c) ∈ identify_kinases full_seq index min_confidence
  ↔ ∃ e, e ∈ MOTIF_DB ∧ kinase e = k ∧ specificity e = c
         ∧ Regex.search (pattern e) (fragment_of full_seq index) = true
         ∧ float_ge c min_confidence = true.
Proof.
  exact (identify_kinases_with_elem_of MOTIF_DB full_seq index min_confidence
           k c SiteMatcher.MOTIF_DB_distinct).
Qed.

Lemma identify_kinases_with_raise (db : list MotifEntry)
    (full_seq : string) (index : Z) (m m' : Q) :
  NoDup (kinase <$> db) → (m <= m')%Q →
  identify_kinases_with db full_seq index (Finite m')
  = filter (reaches m') (identify_kinases_with db full_seq index (Finite m)).
Proof.
  intros Hdb Hm. rewrite !identify_kinases_with_distinct by done.
  rewrite filter_sorted. f_equal. clear Hdb.
  assert (∀ e, qualifies (fragment_of full_seq index) (Finite m') e = true
               ↔ qualifies (fragment_of full_seq index) (Finite m) e = true
                 ∧ reaches m' (hit_of e)) as Hq.
  { intros e. unfold qualifies, reaches, hit_of. simpl.
    rewrite !andb_true_iff, !Qle_bool_iff. split.
    - intros [? ?]. split_and!; [done| |done]. by eapply Qle_trans.
    - intros [[? _] ?]. done. }
  induction db as [|e db IH]; [done|].
  rewrite !filter_cons.
  destruct (decide (qualifies _ (Finite m') e = true)) as [H'|H'];
    destruct (decide (qualifies _ (Finite m) e = true)) as [H|H].
  - rewrite !fmap_cons, filter_cons, decide_True by by apply Hq.
    by rewrite IH.
  - by destruct H; apply Hq.
  - rewrite fmap_cons, filter_cons, decide_False; [done|].
    intros ?. apply H', Hq. done.
  - done.
Qed.

(** X2: raising the threshold only removes pairs: the result for a
    higher finite threshold is the result for the lower one without the
    pairs below the higher threshold, in the same order. *)
Theorem identify_kinases_threshold_filters
    (full_seq : string) (index : Z) (m m' : Q) :
  (m <= m')%Q →
  identify_kinases full_seq index (Finite m')
  = filter (reaches m') (identify_kinases full_seq index (Finite m)).
Proof.
  intros Hm.
  exact (identify_kinases_with_raise MOTIF_DB full_seq index m m'
           SiteMatcher.MOTIF_DB_distinct Hm).
Qed.

Lemma identify_kinases_threshold_filters_witness :
  (0 <= f0_60)%Q
  ∧ identify_kinases "MARKRRASLPPKQ" 7 (Finite f0_60)
    = filter (reaches f0_60) (identify_kinases "MARKRRASLPPKQ" 7 (Finite 0)).
Proof.
  assert (0 <= f0_60)%Q as H by (by vm_compute).
  split; [exact H|].
  exact (identify_kinases_threshold_filters "MARKRRASLPPKQ" 7 0 f0_60 H).
Defined.

Lemma MOTIF_DB_no_empty_match :
  Forall (λ e, Regex.search (pattern e) "" = false) MOTIF_DB.
Proof. repeat constructor. Qed.

Lemma length_zero_empty (s : string) : String.length s = 0%nat → s = "".
Proof. by destruct s. Qed.

Lemma identify_kinases_with_empty_window (db : list MotifEntry)
    (full_seq : string) (index : Z) (min_confidence : pyfloat) :
  Forall (λ e, Regex.search (pattern e) "" = false) db →
  fragment_of full_seq index = "" →
  identify_kinases_with db full_seq index min_confidence = [].
Proof.
  intros Hdb Hfrag. unfold identify_kinases_with. rewrite Hfrag.
  rewrite hits_none; [done|]. intros e He. unfold qualifies.
  rewrite Forall_forall in Hdb. by rewrite (Hdb e He).
Qed.

(** X3: a site index at least 7 past the end is not rejected: the
    window is empty and no kinase is reported. *)
Theorem identify_kinases_beyond_end
    (full_seq : string) (index : Z) (min_confidence : pyfloat) :
  (PyStr.len full_seq + 7 ≤ index)%Z →
  fragment_of full_seq index = ""
  ∧ identify_kinases full_seq index min_confidence = [].
Proof.
  intros Hidx.
  assert (fragment_of full_seq index = "") as Hfrag.
  { apply length_zero_empty. unfold fragment_of, PyStr.slice, WINDOW_HALF.
    rewrite length_substring. unfold PyStr.clamp_index, PyStr.len in *.
    repeat case_match; lia. }
  split; [done|].
  exact (identify_kinases_with_empty_window MOTIF_DB full_seq index
           min_confidence MOTIF_DB_no_empty_match Hfrag).
Qed.

Lemma identify_kinases_beyond_end_witness :
  (PyStr.len "MARKRRASLPPKQ" + 7 ≤ 20)%Z
  ∧ identify_kinases "MARKRRASLPPKQ" 20 (Finite 0) = [].
Proof.
  assert (PyStr.len "MARKRRASLPPKQ" + 7 ≤ 20)%Z as H by (vm_compute; done).
  split; [exact H|].
  exact (proj2 (identify_kinases_beyond_end "MARKRRASLPPKQ" 20 (Finite 0) H)).
Defined.

(** X4: a negative site index is not rejected either, and it does not
    count from the end: the window is the prefix of the sequence that
    stops at [index + 8], or at [len + index + 8] when [index + 8] is
    itself negative. *)
Theorem identify_kinases_negative_index (full_seq : string) (index : Z) :
  (index < 0)%Z →
  fragment_of full_seq index
  = substring 0
      (Z.to_nat (if (index + 8 <? 0)%Z
                 then PyStr.len full_seq + index + 8
                 else Z.min (PyStr.len full_seq) (index + 8))%Z)
      full_seq.
Proof.
  intros Hidx. unfold fragment_of, PyStr.slice, WINDOW_HALF.
  unfold PyStr.clamp_index, PyStr.len in *.
  repeat case_match; f_equal; lia.
Qed.

Lemma identify_kinases_negative_index_witness :
  (-1 < 0)%Z ∧ fragment_of "MARKRRASLPPKQ" (-1) = "MARKRRA"
  ∧ fragment_of "MARKRRASLPPKQ" (-10) = "MARKRRASLPP".
Proof.
  assert (-1 < 0)%Z as H1 by done. assert (-10 < 0)%Z as H2 by done.
  split; [exact H1|]. split.
  - exact (identify_kinases_negative_index "MARKRRASLPPKQ" (-1) H1).
  - exact (identify_kinases_negative_index "MARKRRASLPPKQ" (-10) H2).
Defined.
End SiteMatcherMore.

(** ** Further properties of the record normaliser *)
Module NormalizationMore.
Import Pandas Normalization NormalizationSpec PyStrSpec PyStrFacts.
Import NormalizationFacts.

(** The kinase and confidence tokens of a row, as the function splits
    them. *)
Lemma split_cell_unfold (c : cell) :
  split_cell c = PyStr.split "," (to_str (fillna "" c)).
Proof. done. Qed.

Lemma _align_lookup (k_list c_list : list string) (i : nat) (k : string) :
  k_list !! i = Some k →
  (_align k_list c_list).2 !! i = Some (default "" (c_list !! i)).
Proof.
  intros Hk. apply lookup_lt_Some in Hk as Hi. unfold _align. simpl.
  rewrite lookup_take_lt by done.
  destruct (c_list !! i) as [c|] eqn:Hc; simpl.
  - by rewrite lookup_app_l by by eapply lookup_lt_Some.
  - apply lookup_ge_None in Hc. rewrite lookup_app_r by done.
    apply lookup_replicate_2. lia.
Qed.

Lemma elem_of_explode_aligned (row r : gmap string cell) :
  r ∈ explode_aligned row
  ↔ ∃ i k,
      split_cell (at_ row "Kinase Name") !! i = Some k
      ∧ r = <["Confidence" :=
                Str (PyStr.strip
                       (default "" (split_cell (at_ row "Confidence") !! i)))]>
              (<["Kinase Name" := Str k]> row).
Proof.
  unfold explode_aligned.
  destruct (_align _ _) as [k_list c_list] eqn:Halign.
  assert (k_list = split_cell (at_ row "Kinase Name")) as Hk
    by by injection Halign.
  assert (c_list = (_align (split_cell (at_ row "Kinase Name"))
                           (split_cell (at_ row "Confidence"))).2) as Hc
    by by rewrite Halign.
  rewrite list_elem_of_fmap. split.
  - intros ([k c] & -> & (i & Hi)%list_elem_of_lookup).
    apply lookup_zip_with_Some in Hi as (k' & c' & [= <- <-] & Hki & Hci).
    subst k_list. exists i, k. split; [done|]. simpl.
    rewrite Hc, (_align_lookup _ _ _ _ Hki) in Hci. by injection Hci as <-.
  - intros (i & k & Hki & ->).
    exists (k, default "" (split_cell (at_ row "Confidence") !! i)).
    split; [done|]. apply list_elem_of_lookup. exists i.
    apply lookup_zip_with_Some. eexists _, _. split; [done|].
    subst k_list. split; [done|]. rewrite Hc. by eapply _align_lookup.
Qed.

Lemma elem_of_explode_kinase (row r : gmap string cell) :
  r ∈ explode_kinase row
  ↔ ∃ i k, split_cell (at_ row "Kinase Name") !! i = Some k
           ∧ r = <["Kinase Name" := Str k]> row.
Proof.
  unfold explode_kinase. rewrite list_elem_of_fmap. split.
  - intros (k & -> & (i & Hi)%list_elem_of_lookup). by exists i, k.
  - intros (i & k & Hi & ->). exists k. split; [done|].
    by eapply list_elem_of_lookup_2.
Qed.

Lemma elem_of_tidy (rs : list (gmap string cell)) (r : gmap string cell) :
  r ∈ tidy rs →
  ∃ r0, r0 ∈ rs ∧ r = strip_kinase r0 ∧ at_ r "Kinase Name" ≠ Str "".
Proof.
  unfold tidy, drop_duplicates.
  intros [[Hne (r0 & -> & Hr0)%list_elem_of_fmap]%list_elem_of_filter _]
    %drop_duplicates_from_sub.
  by exists r0.
Qed.

Lemma drop_duplicates_from_complete {K : Type} `{EqDecision K}
    (key : gmap string cell → K) (seen : list K)
    (rs : list (gmap string cell)) (r : gmap string cell) :
  r ∈ rs → key r ∉ seen →
  ∃ r', r' ∈ drop_duplicates_from key seen rs ∧ key r' = key r.
Proof.
  revert seen. induction rs as [|x rs IH]; intros seen; simpl.
  - by intros ?%elem_of_nil.
  - intros [->|Hr]%elem_of_cons Hseen.
    + rewrite decide_False by done. exists x. split; [left|done].
    + case_decide as Hx; [by apply IH|].
      destruct (decide (key r = key x)) as [Heq|Hne].
      * exists x. split; [left|done].
      * destruct (IH (key x :: seen) Hr) as (r' & Hr' & Hk).
        { apply not_elem_of_cons. done. }
        exists r'. split; [by right|done].
Qed.

Lemma tidy_complete (rs : list (gmap string cell)) (r0 : gmap string cell) :
  r0 ∈ rs → at_ (strip_kinase r0) "Kinase Name" ≠ Str "" →
  ∃ r, r ∈ tidy rs ∧ motif_kinase r = motif_kinase (strip_kinase r0).
Proof.
  intros Hr0 Hne. unfold tidy, drop_duplicates.
  apply drop_duplicates_from_complete; [|apply not_elem_of_nil].
  apply list_elem_of_filter. split; [done|].
  apply list_elem_of_fmap. by exists r0.
Qed.

Lemma strip_kinase_insert (row : gmap string cell) (k : string) :
  strip_kinase (<["Kinase Name" := Str k]> row)
  = <["Kinase Name" := Str (PyStr.strip k)]> row.
Proof.
  unfold strip_kinase. rewrite at_insert_eq. simpl.
  apply insert_insert_eq.
Qed.

Lemma strip_kinase_insert_conf (row : gmap string cell) (k c : string) :
  strip_kinase (<["Confidence" := Str c]> (<["Kinase Name" := Str k]> row))
  = <["Kinase Name" := Str (PyStr.strip k)]>
      (<["Confidence" := Str c]> row).
Proof.
  unfold strip_kinase.
  rewrite (at_insert_ne _ "Confidence" "Kinase Name") by done.
  rewrite at_insert_eq. simpl.
  rewrite (insert_insert_ne row "Confidence" "Kinase Name") by done.
  by rewrite insert_insert_eq.
Qed.

(** X5: every row of the result was split off a row of the input: it
    carries one kinase token of that row, stripped and not empty, the
    confidence token at the same position (empty when there is none)
    where the table has a ["Confidence"] column, and the input row's
    cells everywhere else. *)
Theorem normalize_kinase_rows_rows_from_input
    (df out : DataFrame) (r : gmap string cell) :
  normalize_kinase_rows df = Ok out → r ∈ rows out →
  ∃ row i k,
    row ∈ rows df
    ∧ PyStr.split "," (to_str (fillna "" (at_ row "Kinase Name"))) !! i
      = Some k
    ∧ PyStr.strip k ≠ ""
    ∧ r !! "Kinase Name" = Some (Str (PyStr.strip k))
    ∧ ("Confidence" ∈ columns df →
       r !! "Confidence"
       = Some (Str (PyStr.strip
            (default ""
               (PyStr.split ","
                  (to_str (fillna "" (at_ row "Confidence"))) !! i)))))
    ∧ (∀ label, label ≠ "Kinase Name" →
         "Confidence" ∉ columns df ∨ label ≠ "Confidence" →
         r !! label = row !! label).
Proof.
  unfold normalize_kinase_rows. case_decide as Hreq; [|done].
  case_decide as Hconf.
  - destruct (rows df) as [|r0 rs] eqn:Hrows; [done|]. rewrite <-Hrows.
    intros [= <-]. simpl.
    intros (r1 & (row & Hr1 & Hrow)%list_elem_of_bind & -> & Hne)%elem_of_tidy.
    apply elem_of_explode_aligned in Hr1 as (i & k & Hk & ->).
    rewrite strip_kinase_insert_conf in Hne |- *.
    rewrite at_insert_eq in Hne.
    exists row, i, k. split_and!; [done|done|congruence| | |].
    + apply lookup_insert_eq.
    + intros _. rewrite lookup_insert_ne by done. apply lookup_insert_eq.
    + intros label Hl [?|Hl']; [done|]. by rewrite !lookup_insert_ne.
  - intros [= <-]. simpl.
    intros (r1 & (row & Hr1 & Hrow)%list_elem_of_bind & -> & Hne)%elem_of_tidy.
    apply elem_of_explode_kinase in Hr1 as (i & k & Hk & ->).
    rewrite strip_kinase_insert in Hne |- *. rewrite at_insert_eq in Hne.
    exists row, i, k. split_and!; [done|done|congruence| |done|].
    + apply lookup_insert_eq.
    + intros label Hl _. by rewrite lookup_insert_ne.
Qed.

Lemma normalize_kinase_rows_rows_from_input_witness :
  let df :=
    mkDataFrame ["Motif"; "Kinase Name"; "Confidence"]
      [ {[ "Motif" := Str "RRASL"; "Kinase Name" := Str "PKA, AKT ,,PKA";
           "Confidence" := Str "0.60, 0.85" ]} ] in
  let r : gmap string cell :=
    {[ "Motif" := Str "RRASL"; "Kinase Name" := Str "AKT";
       "Confidence" := Str "0.85" ]} in
  ∃ out,
    normalize_kinase_rows df = Ok out ∧ r ∈ rows out
    ∧ ∃ row i k,
        row ∈ rows df
        ∧ PyStr.split "," (to_str (fillna "" (at_ row "Kinase Name"))) !! i
          = Some k
        ∧ r !! "Kinase Name" = Some (Str (PyStr.strip k)).
Proof.
  intros df r.
  set (out := mkDataFrame ["Motif"; "Kinase Name"; "Confidence"]
      [ {[ "Motif" := Str "RRASL"; "Kinase Name" := Str "PKA";
           "Confidence" := Str "0.60" ]}; r ]).
  assert (normalize_kinase_rows df = Ok out) as Hout
    by (vm_compute; reflexivity).
  assert (r ∈ rows out) as Hr by (right; left).
  exists out. split; [exact Hout|]. split; [exact Hr|].
  destruct (normalize_kinase_rows_rows_from_input df out r Hout Hr)
    as (row & i & k & H1 & H2 & _ & H4 & _).
  by exists row, i, k.
Defined.

(** X6: no prediction is lost: for every kinase token of every input row
    that is not blank, the result has a row with that row's motif and
    the stripped token as its kinase. *)
Theorem normalize_kinase_rows_keeps_every_kinase
    (df out : DataFrame) (row : gmap string cell) (k : string) :
  normalize_kinase_rows df = Ok out → row ∈ rows df →
  k ∈ PyStr.split "," (to_str (fillna "" (at_ row "Kinase Name"))) →
  PyStr.strip k ≠ "" →
  ∃ r, r ∈ rows out
       ∧ at_ r "Motif" = at_ row "Motif"
       ∧ at_ r "Kinase Name" = Str (PyStr.strip k).
Proof.
  intros Hout Hrow (i & Hk)%list_elem_of_lookup Hne.
  unfold normalize_kinase_rows in Hout. case_decide as Hreq; [|done].
  case_decide as Hconf.
  - destruct (rows df) as [|r0 rs] eqn:Hrows; [by apply elem_of_nil in Hrow|].
    rewrite <-Hrows in *. injection Hout as <-. simpl.
    set (c := default "" (split_cell (at_ row "Confidence") !! i)).
    destruct (tidy_complete (rows df ≫= explode_aligned)
                (<["Confidence" := Str (PyStr.strip c)]>
                   (<["Kinase Name" := Str k]> row)))
      as (r & Hr & Hkey).
    + apply list_elem_of_bind. exists row. split; [|done].
      apply elem_of_explode_aligned. by exists i, k.
    + rewrite strip_kinase_insert_conf, at_insert_eq. congruence.
    + exists r. split; [done|].
      rewrite strip_kinase_insert_conf in Hkey. unfold motif_kinase in Hkey.
      injection Hkey as -> ->. rewrite at_insert_eq.
      by rewrite !at_insert_ne by done.
  - injection Hout as <-. simpl.
    destruct (tidy_complete (rows df ≫= explode_kinase)
                (<["Kinase Name" := Str k]> row)) as (r & Hr & Hkey).
    + apply list_elem_of_bind. exists row. split; [|done].
      apply elem_of_explode_kinase. by exists i, k.
    + rewrite strip_kinase_insert, at_insert_eq. congruence.
    + exists r. split; [done|].
      rewrite strip_kinase_insert in Hkey. unfold motif_kinase in Hkey.
      injection Hkey as -> ->. rewrite at_insert_eq.
      by rewrite !at_insert_ne by done.
Qed.

Lemma normalize_kinase_rows_keeps_every_kinase_witness :
  let row : gmap string cell :=
    {[ "Motif" := Str "RRASL"; "Kinase Name" := Str "PKA, AKT ,,PKA";
       "Confidence" := Str "0.60, 0.85" ]} in
  let df := mkDataFrame ["Motif"; "Kinase Name"; "Confidence"] [row] in
  ∃ out,
    normalize_kinase_rows df = Ok out
    ∧ ∃ r, r ∈ rows out
           ∧ at_ r "Motif" = at_ row "Motif"
           ∧ at_ r "Kinase Name" = Str (PyStr.strip " AKT ").
Proof.
  intros row df.
  destruct (normalize_kinase_rows df) as [out|e] eqn:Hout.
  - exists out. split; [done|].
    apply (normalize_kinase_rows_keeps_every_kinase df out row " AKT " Hout).
    + by left.
    + assert (PyStr.split "," (to_str (fillna "" (at_ row "Kinase Name")))
              = ["PKA"; " AKT "; ""; "PKA"]) as -> by (vm_compute; reflexivity).
      right. left.
    + intros E. vm_compute in E. discriminate.
  - exfalso. vm_compute in Hout. discriminate.
Defined.

(** X7: the result has the columns of the input; each of its rows holds
    one kinase name, stripped, not empty and without comma (and, with a
    ["Confidence"] column, one stripped confidence without comma); and no
    two of its rows agree on both motif and kinase. *)
Theorem normalize_kinase_rows_one_kinase_per_row (df out : DataFrame) :
  normalize_kinase_rows df = Ok out →
  columns out = columns df
  ∧ Forall (normal_row (bool_decide ("Confidence" ∈ columns df))) (rows out)
  ∧ NoDup ((λ r, (at_ r "Motif", at_ r "Kinase Name")) <$> rows out).
Proof. apply normalize_kinase_rows_normal. Qed.

Lemma normalize_kinase_rows_one_kinase_per_row_witness :
  let df :=
    mkDataFrame ["Motif"; "Kinase Name"; "Confidence"]
      [ {[ "Motif" := Str "RRASL"; "Kinase Name" := Str "PKA, AKT ,,PKA";
           "Confidence" := Str "0.60, 0.85" ]} ] in
  ∃ out,
    normalize_kinase_rows df = Ok out
    ∧ columns out = columns df
    ∧ Forall (normal_row (bool_decide ("Confidence" ∈ columns df))) (rows out)
    ∧ NoDup ((λ r, (at_ r "Motif", at_ r "Kinase Name")) <$> rows out).
Proof.
  intros df.
  destruct (normalize_kinase_rows df) as [out|e] eqn:Hout.
  - exists out. split; [done|].
    exact (normalize_kinase_rows_one_kinase_per_row df out Hout).
  - exfalso. vm_compute in Hout. discriminate.
Defined.

(** X8: the error for missing columns is raised exactly when
    ["Kinase Name"] or ["Motif"] is not a column of the table. *)
Theorem normalize_kinase_rows_value_error_iff (df : DataFrame) :
  (∃ missing,
     normalize_kinase_rows df = Err (ValueError_missing_columns missing))
  ↔ "Kinase Name" ∉ columns df ∨ "Motif" ∉ columns df.
Proof.
  split.
  - intros [missing Herr].
    destruct (decide ("Kinase Name" ∈ columns df)) as [Hk|]; [|by left].
    destruct (decide ("Motif" ∈ columns df)) as [Hm|]; [|by right].
    by destruct (normalize_kinase_rows_columns_present df Hk Hm missing).
  - intros Habsent. unfold normalize_kinase_rows.
    rewrite decide_False; [by eexists|]. intros Hempty.
    assert (∀ c, c ∉ required ∖ list_to_set (C := gset string) (columns df))
      as Hnone by (intros c; rewrite Hempty; set_solver).
    destruct Habsent as [Hk|Hm].
    + apply (Hnone "Kinase Name"), missing_columns_iff. auto.
    + apply (Hnone "Motif"), missing_columns_iff. auto.
Qed.

(** X9: normalising the result of a call again gives the same table,
    provided the second call gets past the alignment: the table has
    rows left or there is no ["Confidence"] column. *)
Theorem normalize_kinase_rows_twice (df out : DataFrame) :
  normalize_kinase_rows df = Ok out →
  rows out ≠ [] ∨ "Confidence" ∉ columns df →
  normalize_kinase_rows out = Ok out.
Proof. apply normalize_kinase_rows_idempotent. Qed.

Lemma normalize_kinase_rows_twice_witness :
  let df :=
    mkDataFrame ["Motif"; "Kinase Name"]
      [ {[ "Motif" := Str "RRASL"; "Kinase Name" := Str " PKA ,PKA" ]} ] in
  ∃ out,
    normalize_kinase_rows df = Ok out ∧ normalize_kinase_rows out = Ok out.
Proof.
  intros df.
  destruct (normalize_kinase_rows df) as [out|e] eqn:Hout.
  - exists out. split; [done|].
    apply (normalize_kinase_rows_twice df out Hout). right.
    apply (bool_decide_unpack _). vm_compute. exact I.
  - exfalso. vm_compute in Hout. discriminate.
Defined.
End NormalizationMore.

(** ** Further properties of the validator *)
Module ValidationMore.
Import Pandas Validation ValidationSpec ValidationSpec2 PyStrSpec PyStrFacts.
Import ValidationFacts.

(** X10: a row is marked correct exactly when one of its predicted names
    (a stripped, non-empty token of the comma-separated kinase cell)
    has the same normal form as one of the kinases found for its
    motif. *)
Theorem validate_row_correct_iff
    (kinase_ref_data : PyDict.dict (list string)) (row : gmap string cell) :
  Correct (validate_row kinase_ref_data row) = true
  ↔ ∃ tok actual,
      tok ∈ PyStr.split ","
              (if notna (at_ row "Kinase Name")
               then to_str (at_ row "Kinase Name") else "")
      ∧ PyStr.strip tok ≠ ""
      ∧ actual ∈ find_kinases kinase_ref_data
                   (PyStr.upper (to_str (at_ row "Motif")))
      ∧ _normalize_name_for_matching (PyStr.strip tok)
        = _normalize_name_for_matching actual.
Proof.
  assert (∀ c pred, pred ∈ parse_predictions c
            ↔ ∃ tok, tok ∈ PyStr.split "," (if notna c then to_str c else "")
                     ∧ PyStr.strip tok ≠ "" ∧ pred = PyStr.strip tok) as Hparse.
  { intros c pred. unfold parse_predictions. rewrite list_elem_of_bind. split.
    - intros (tok & Hp & Htok). case_decide; [by apply elem_of_nil in Hp|].
      apply list_elem_of_singleton in Hp. by exists tok.
    - intros (tok & Htok & Hne & ->). exists tok.
      rewrite decide_False by done. split; [left|done]. }
  unfold validate_row. simpl.
  destruct (find_kinases _ _) as [|k ks] eqn:Hfound.
  - split; [done|]. by intros (? & ? & _ & _ & ?%elem_of_nil & _).
  - rewrite check_predictions_iff. split.
    + intros (pred & actual & Hpred & Hact & Hm).
      apply Hparse in Hpred as (tok & ? & ? & ->).
      apply _kinase_names_match_iff in Hm. by exists tok, actual.
    + intros (tok & actual & ? & ? & ? & ?).
      exists (PyStr.strip tok), actual. split_and!; [|done|].
      * apply Hparse. by exists tok.
      * by apply _kinase_names_match_iff.
Qed.

Lemma find_kinases_sublist
    (kinase_ref_data : PyDict.dict (list string)) (p_motif : string) :
  find_kinases kinase_ref_data p_motif `sublist_of` kinase_ref_data.*1.
Proof.
  unfold find_kinases.
  induction kinase_ref_data as [|[k refs] data IH]; [done|]. csimpl.
  destruct (motif_found p_motif refs); simpl.
  - by apply sublist_skip.
  - by apply sublist_cons.
Qed.

(** X11: the kinases found for a motif are listed in the order of the
    reference dictionary, none more often than it is a key there; with
    distinct keys no kinase is listed twice. *)
Theorem find_kinases_in_reference_order
    (kinase_ref_data : PyDict.dict (list string)) (p_motif : string) :
  find_kinases kinase_ref_data p_motif `sublist_of` kinase_ref_data.*1
  ∧ (NoDup kinase_ref_data.*1 →
     NoDup (find_kinases kinase_ref_data p_motif)).
Proof.
  split; [apply find_kinases_sublist|].
  intros Hnd. eapply sublist_NoDup; [done|apply find_kinases_sublist].
Qed.

Lemma length_filter_fmap {A B : Type} (f : A → B) (P : B → Prop)
    `{∀ y, Decision (P y)} (l : list A) :
  length (filter P (f <$> l)) = length (filter (λ x, P (f x)) l).
Proof.
  induction l as [|x l IH]; [done|]. csimpl. rewrite !filter_cons.
  case_decide; simpl; by rewrite IH.
Qed.

Lemma length_filter_ext {A : Type} (P Q : A → Prop)
    `{∀ x, Decision (P x)} `{∀ x, Decision (Q x)} (l : list A) :
  (∀ x, P x ↔ Q x) → length (filter P l) = length (filter Q l).
Proof.
  intros HPQ. induction l as [|x l IH]; [done|]. rewrite !filter_cons.
  destruct (decide (P x)) as [HP|HP], (decide (Q x)) as [HQ|HQ]; simpl;
    try (by rewrite IH); by (apply HPQ in HP || apply HPQ in HQ).
Qed.



(** X13: the summary counts the rows of the result: [matched_psp] is the
    number of rows marked [In_PSP], [correct] the number marked
    [Correct], and [acc_percent] is 100 * correct / matched_psp, between
    0 and 100, and 0 when no row was matched. *)
Theorem validate_predictions_summary_counts
    (pm_df : DataFrame) (kinase_ref_data : PyDict.dict (list string))
    (final_df : DataFrame) (summary : acc_summary) :
  validate_predictions pm_df kinase_ref_data = Ok (final_df, summary) →
  matched_psp summary
  = Z.of_nat (length (filter (λ r, r !! "In_PSP" = Some (Bool true))
                             (rows final_df)))
  ∧ correct summary
    = Z.of_nat (length (filter (λ r, r !! "Correct" = Some (Bool true))
                               (rows final_df)))
  ∧ (matched_psp summary = 0%Z → acc_percent summary = 0%Q)
  ∧ ((0 < matched_psp summary)%Z →
     (acc_percent summary
      == inject_Z (correct summary) / inject_Z (matched_psp summary) * 100)%Q)
  ∧ (0 <= acc_percent summary)%Q ∧ (acc_percent summary <= 100)%Q.
Proof.
  unfold validate_predictions.
  destruct (rows pm_df) as [|r0 rs] eqn:Hrows; [done|].
  rewrite <-Hrows. clear Hrows.
  repeat case_decide; try done. intros [= <- <-]. simpl.
  rewrite zip_with_fmap_same.
  set (results := validate_row kinase_ref_data <$> rows pm_df).
  set (valid := filter (λ v, In_PSP v = true) results).
  assert (length (filter (λ v, Correct v = true) valid)
          = length (filter (λ v, Correct v = true) results)) as Hcorrect.
  { unfold valid, results. rewrite list_filter_filter, !length_filter_fmap.
    apply length_filter_ext. intros r. split; [by intros [??]|].
    intros Hc. split; [done|]. by apply validate_row_correct_found. }
  assert (length (filter (λ v, Correct v = true) valid) ≤ length valid)%nat
    as Hle by apply length_filter.
  split_and!.
  - f_equal. unfold valid, results. rewrite !length_filter_fmap.
    apply length_filter_ext. intros r. cbv beta.
    destruct (annotate_lookup r (validate_row kinase_ref_data r))
      as (Hl & _ & _). rewrite Hl.
    split; [congruence|by intros [= ?]].
  - f_equal. rewrite Hcorrect. unfold results. rewrite !length_filter_fmap.
    apply length_filter_ext. intros r. cbv beta.
    destruct (annotate_lookup r (validate_row kinase_ref_data r))
      as (_ & Hl & _). rewrite Hl.
    split; [congruence|by intros [= ?]].
  - intros Hz. destruct valid; [done|]. simpl in Hz. lia.
  - intros Hpos. destruct valid eqn:Hv; [simpl in Hpos; lia|].
    rewrite <-Hv. reflexivity.
  - destruct valid eqn:Hv; [apply Qle_refl|]. rewrite <-Hv in *.
    apply Qmult_le_0_compat; [|done]. apply ScorerFacts.ratio_nonneg; lia.
  - destruct valid eqn:Hv; [done|]. rewrite <-Hv in *.
    assert (0 < length valid)%nat by (rewrite Hv; simpl; lia).
    apply Qle_trans with (1 * 100)%Q; [|done].
    apply Qmult_le_compat_r; [|done].
    apply Qle_shift_div_r.
    + unfold Qlt. simpl. lia.
    + rewrite Qmult_1_l. unfold Qle. simpl. lia.
Qed.

Lemma validate_predictions_summary_counts_witness :
  let pm_df :=
    mkDataFrame ["Motif"; "Kinase Name"]
      [ {[ "Motif" := Str "RRASLAA"; "Kinase Name" := Str "PKA" ]};
        {[ "Motif" := Str "RRASLAA"; "Kinase Name" := Str "AKT" ]};
        {[ "Motif" := Str "RRAS"; "Kinase Name" := Str "PKA" ]} ] in
  let kinase_ref_data := [("PKA", ["XXRRASLAAXX"; "RRAS"])] in
  ∃ final_df summary,
    validate_predictions pm_df kinase_ref_data = Ok (final_df, summary)
    ∧ (0 <= acc_percent summary)%Q ∧ (acc_percent summary <= 100)%Q.
Proof.
  intros pm_df kinase_ref_data.
  destruct (validate_predictions pm_df kinase_ref_data)
    as [[final_df summary]|e] eqn:Hv.
  - exists final_df, summary. split; [done|].
    exact (proj2 (proj2 (proj2 (proj2
      (validate_predictions_summary_counts _ _ _ _ Hv))))).
  - exfalso. vm_compute in Hv. discriminate.
Defined.
End ValidationMore.

(** ** Further properties of the scorer *)
Module ScorerMore.
Import Pandas Validation ValidationSpec ValidationSpec2 PyStrSpec PyStrFacts.
Import ValidationFacts ScorerFacts PyStr.

Lemma split_at_append_free (sep : ascii → bool) (x rest : string) :
  free_of sep x →
  split_at sep (x +:+ rest)
  = match split_at sep rest with
    | tok :: toks => (x +:+ tok) :: toks
    | [] => [x]
    end.
Proof.
  unfold free_of. induction x as [|c x IH].
  - intros _. change ("" +:+ rest) with rest.
    destruct (split_at sep rest) as [|tok toks] eqn:Hs; [|done].
    by apply split_at_nonempty in Hs.
  - simpl (all_chars _ _). intros [Hc Hx]%andb_true_iff.
    apply negb_true_iff in Hc.
    change (String c x +:+ rest) with (String c (x +:+ rest)).
    cbn [split_at]. rewrite Hc, IH by done.
    destruct (split_at sep rest) as [|tok toks] eqn:Hs; [|done].
    by apply split_at_nonempty in Hs.
Qed.

Lemma split_at_join (names : list string) (x : string) :
  Forall (free_of (λ c, PyStr.mem c ";,")) (x :: names) →
  split_at (λ c, PyStr.mem c ";,") (PyStr.join ", " (x :: names))
  = x :: (String " " <$> names).
Proof.
  revert x. induction names as [|y names IH]; intros x.
  - intros [Hx _]%Forall_cons. simpl. by apply split_at_of_free.
  - intros [Hx Hrest]%Forall_cons.
    change (PyStr.join ", " (x :: y :: names))
      with (x +:+ ", " +:+ PyStr.join ", " (y :: names)).
    rewrite split_at_append_free by done.
    change (", " +:+ PyStr.join ", " (y :: names))
      with (String "," (String " " (PyStr.join ", " (y :: names)))).
    cbn [split_at PyStr.mem Ascii.eqb]. simpl (PyStr.mem _ _).
    rewrite IH by done. simpl. by rewrite append_nil_r.
Qed.

Lemma strip_space_cons (s : string) :
  PyStr.strip (String " " s) = PyStr.strip s.
Proof. done. Qed.

Lemma parse_field_of_join (names : list string) :
  Forall clean_name names →
  _parse_field (Str (PyStr.join ", " names)) = names.
Proof.
  intros Hall. unfold _parse_field. simpl.
  destruct names as [|x names]; [done|].
  rewrite split_at_join.
  2:{ eapply Forall_impl; [done|]. by intros k (_ & _ & ?). }
  apply Forall_cons in Hall as [[Hstrip [Hne _]] Hl].
  csimpl. rewrite Hstrip, decide_False by done. simpl. f_equal.
  induction Hl as [|z l' [Hz [Hzne _]] Hl' IH']; [done|].
  csimpl. rewrite strip_space_cons, Hz, decide_False by done. simpl.
  by f_equal.
Qed.

(** X14: a list of clean names written with [", ".join] is read back
    unchanged by [_parse_field]. *)
Theorem _parse_field_join (names : list string) :
  Forall clean_name names →
  _parse_field (Str (PyStr.join ", " names)) = names.
Proof. apply parse_field_of_join. Qed.

Lemma _parse_field_join_witness :
  Forall clean_name ["PKA"; "p38&MAPK"; "Aurora A"]
  ∧ _parse_field (Str "PKA, p38&MAPK, Aurora A")
    = ["PKA"; "p38&MAPK"; "Aurora A"].
Proof.
  assert (Forall clean_name ["PKA"; "p38&MAPK"; "Aurora A"]) as H
    by (apply (bool_decide_unpack _); vm_compute; exact I).
  split; [exact H|].
  exact (_parse_field_join ["PKA"; "p38&MAPK"; "Aurora A"] H).
Defined.

Lemma actual_set_of_validated
    (kinase_ref_data : PyDict.dict (list string))
    (row : gmap string cell) (group : list (gmap string cell)) :
  Forall clean_name kinase_ref_data.*1 →
  actual_set (annotate row (validate_row kinase_ref_data row) :: group)
  = list_to_set
      (_normalize_name_for_matching
         <$> find_kinases kinase_ref_data
               (PyStr.upper (to_str (at_ row "Motif")))).
Proof.
  intros Hclean. unfold actual_set. rewrite fmap_cons.
  destruct (annotate_lookup row (validate_row kinase_ref_data row))
    as (_ & _ & Hactual).
  unfold at_ at 1. rewrite Hactual. simpl. f_equal. f_equal.
  apply parse_field_of_join.
  pose proof (ValidationMore.find_kinases_sublist
                kinase_ref_data (PyStr.upper (to_str (at_ row "Motif"))))
    as Hsub.
  apply Forall_forall. intros k Hk. rewrite Forall_forall in Hclean.
  apply Hclean. by eapply sublist_subseteq.
Qed.

(** X15: the scorer reads back what the validator wrote: for a reference
    with clean kinase names, the actual set of a group that starts with
    a validated row is the set of normal forms of the kinases found for
    that row's motif. *)
Theorem scorer_reads_validator_output
    (kinase_ref_data : PyDict.dict (list string))
    (row : gmap string cell) (group : list (gmap string cell)) :
  Forall clean_name kinase_ref_data.*1 →
  actual_set (annotate row (validate_row kinase_ref_data row) :: group)
  = list_to_set
      (_normalize_name_for_matching
         <$> find_kinases kinase_ref_data
               (PyStr.upper (to_str (at_ row "Motif")))).
Proof. apply actual_set_of_validated. Qed.

Lemma scorer_reads_validator_output_witness :
  let data := [("PKA", ["XXRRASLAAXX"]); ("CK2", ["RRASLAAD"])] in
  let row : gmap string cell :=
    {[ "Motif" := Str "rraslaa"; "Kinase Name" := Str "PKA" ]} in
  Forall clean_name data.*1
  ∧ actual_set [annotate row (validate_row data row)] = {[ "PKA"; "CK2" ]}.
Proof.
  intros data row.
  assert (Forall clean_name data.*1) as H
    by (apply (bool_decide_unpack _); vm_compute; exact I).
  split; [exact H|].
  rewrite (scorer_reads_validator_output data row [] H).
  vm_compute. reflexivity.
Defined.

(** *** Bounds on the metrics *)











End ScorerMore.

(** ** Normal forms of kinase names *)
Module NamesMore.
Import Pandas Validation ValidationSpec PyStrSpec PyStrFacts ValidationFacts.

Lemma upper_char_facts (c : ascii) :
  deleted_char (PyStr.upper_char c) = deleted_char c
  ∧ lower_char (PyStr.upper_char c) = false
  ∧ PyStr.upper_char (PyStr.upper_char c) = PyStr.upper_char c.
Proof. destruct c as [[] [] [] [] [] [] [] []]; by vm_compute. Qed.

Lemma normalize_cons (c : ascii) (s : string) :
  _normalize_name_for_matching (String c s)
  = if deleted_char c then _normalize_name_for_matching s
    else String (PyStr.upper_char c) (_normalize_name_for_matching s).
Proof.
  unfold _normalize_name_for_matching. cbn [PyStr.remove_chars].
  change (PyStr.mem c "&-_/" || PyStr.isspace c) with (deleted_char c).
  by destruct (deleted_char c).
Qed.

Lemma normalize_append (a b : string) :
  _normalize_name_for_matching (a +:+ b)
  = _normalize_name_for_matching a +:+ _normalize_name_for_matching b.
Proof.
  induction a as [|c a IH]; [done|].
  rewrite append_cons, !normalize_cons, IH. by destruct (deleted_char c).
Qed.

Lemma normalize_upper (s : string) :
  _normalize_name_for_matching (PyStr.upper s) = _normalize_name_for_matching s.
Proof.
  induction s as [|c s IH]; [done|]. simpl. rewrite !normalize_cons, IH.
  destruct (upper_char_facts c) as (-> & _ & ->). done.
Qed.

Lemma normalize_idemp (s : string) :
  _normalize_name_for_matching (_normalize_name_for_matching s)
  = _normalize_name_for_matching s.
Proof.
  induction s as [|c s IH]; [done|]. rewrite normalize_cons.
  destruct (deleted_char c) eqn:Hc; [done|]. rewrite normalize_cons, IH.
  destruct (upper_char_facts c) as (-> & _ & ->). by rewrite Hc.
Qed.

Lemma normalize_chars (s : string) :
  all_chars (λ c, negb (deleted_char c) && negb (lower_char c))
            (_normalize_name_for_matching s) = true.
Proof.
  induction s as [|c s IH]; [done|]. rewrite normalize_cons.
  destruct (deleted_char c) eqn:Hc; [done|]. simpl. rewrite IH.
  destruct (upper_char_facts c) as (-> & -> & _). by rewrite Hc.
Qed.

(** X17: the normal form used to compare names is a fixed point of the
    normalisation and holds no separator ([&], [-], [_], [/], white
    space) and no lower-case letter; so a name matches its own normal
    form, its upper-case spelling, and itself with a separator inserted
    anywhere. *)
Theorem kinase_names_normal_form (name : string) :
  _normalize_name_for_matching (_normalize_name_for_matching name)
  = _normalize_name_for_matching name
  ∧ all_chars (λ c, negb (deleted_char c) && negb (lower_char c))
              (_normalize_name_for_matching name) = true
  ∧ _kinase_names_match name (_normalize_name_for_matching name) = true
  ∧ _kinase_names_match name (PyStr.upper name) = true
  ∧ (∀ a b c, name = a +:+ b → deleted_char c = true →
       _kinase_names_match name (a +:+ String c b) = true).
Proof.
  split_and!.
  - apply normalize_idemp.
  - apply normalize_chars.
  - apply _kinase_names_match_iff. by rewrite normalize_idemp.
  - apply _kinase_names_match_iff. by rewrite normalize_upper.
  - intros a b c -> Hc. apply _kinase_names_match_iff.
    by rewrite !normalize_append, normalize_cons, Hc.
Qed.
End NamesMore.

(** ** The names of the database *)
Module DatabaseNames.
Import MotifDb ValidationSpec2.

Lemma KINASE_KEYS_NoDup : NoDup KINASE_KEYS.
Proof. apply (bool_decide_unpack _). vm_compute. exact I. Qed.

Lemma KINASE_KEYS_clean : Forall clean_name KINASE_KEYS.
Proof. apply (bool_decide_unpack _). vm_compute. exact I. Qed.
End DatabaseNames.

(** ** The reference loader *)
Module ReferenceLoaderFacts.
Import Pandas Validation ValidationSpec ValidationSpec2 MotifDb.
Import ReferenceLoader ReferenceLoaderSpec PyStrSpec PyStrFacts PyDictFacts.
Import DatabaseNames.







(** *** The cleaned windows *)






End ReferenceLoaderFacts.

(** ** Pathway classification *)
Module CellSignalFacts.
Import Pandas MotifDb CellSignal PyStrFacts PyDictFacts.

Lemma CELL_SIGNAL_MAP_values :
  Forall (λ kv, kv.2 ∈ CELL_SIGNAL_CATEGORY_ORDER) CELL_SIGNAL_MAP.
Proof. apply (bool_decide_unpack _). vm_compute. exact I. Qed.

Lemma KINASE_KEYS_classified :
  Forall (λ k, cell_signal_of (Str k) ∈ CELL_SIGNAL_CATEGORY_ORDER)
         KINASE_KEYS.
Proof. apply (bool_decide_unpack _). vm_compute. exact I. Qed.

Lemma Unknown_not_category : "Unknown" ∉ CELL_SIGNAL_CATEGORY_ORDER.
Proof. apply (bool_decide_unpack _). vm_compute. exact I. Qed.

Lemma key_char_facts (c : ascii) :
  PyStr.isspace (PyStr.upper_char c) = PyStr.isspace c
  ∧ lower_ascii (PyStr.upper_char c) = lower_ascii c.
Proof. destruct c as [[] [] [] [] [] [] [] []]; by vm_compute. Qed.

Lemma key_cons (c : ascii) (s : string) :
  _normalize_kinase_key (String c s)
  = if PyStr.isspace c then _normalize_kinase_key s
    else String (lower_ascii c) (_normalize_kinase_key s).
Proof.
  unfold _normalize_kinase_key. cbn [PyStr.remove_chars].
  by destruct (PyStr.isspace c).
Qed.

Lemma key_upper (s : string) :
  _normalize_kinase_key (PyStr.upper s) = _normalize_kinase_key s.
Proof.
  induction s as [|c s IH]; [done|]. cbn [PyStr.upper].
  rewrite !key_cons, IH. by destruct (key_char_facts c) as [-> ->].
Qed.

Lemma key_space (a b : string) (c : ascii) :
  PyStr.isspace c = true →
  _normalize_kinase_key (a +:+ String c b) = _normalize_kinase_key (a +:+ b).
Proof.
  intros Hc. induction a as [|x a IH].
  - change ("" +:+ String c b) with (String c b).
    change ("" +:+ b) with b. by rewrite key_cons, Hc.
  - by rewrite !append_cons, !key_cons, IH.
Qed.

(** X21: every kinase of the motif database has a pathway category, so
    no prediction is dropped as ["Unknown"]; any cell gets ["Unknown"]
    or one of the listed categories; and the category does not depend
    on the case of the name or on white space in it. *)
Theorem cell_signal_covers_database :
  Forall (λ k, cell_signal_of (Str k) ∈ CELL_SIGNAL_CATEGORY_ORDER)
         KINASE_KEYS
  ∧ ("Unknown" ∉ CELL_SIGNAL_CATEGORY_ORDER)
  ∧ (∀ x, cell_signal_of x = "Unknown"
          ∨ cell_signal_of x ∈ CELL_SIGNAL_CATEGORY_ORDER)
  ∧ (∀ name, cell_signal_of (Str (PyStr.upper name))
             = cell_signal_of (Str name))
  ∧ (∀ a b c, PyStr.isspace c = true →
       cell_signal_of (Str (a +:+ String c b)) = cell_signal_of (Str (a +:+ b))).
Proof.
  split_and!.
  - exact KINASE_KEYS_classified.
  - exact Unknown_not_category.
  - intros x. unfold cell_signal_of.
    destruct (PyDict.get _ CELL_SIGNAL_MAP) as [v|] eqn:Hget; [right|by left].
    apply get_Some_elem_of in Hget.
    pose proof CELL_SIGNAL_MAP_values as Hall. rewrite Forall_forall in Hall.
    exact (Hall _ Hget).
  - intros name. unfold cell_signal_of, to_str. by rewrite key_upper.
  - intros a b c Hc. unfold cell_signal_of, to_str. by rewrite key_space.
Qed.
End CellSignalFacts.

(** ** Cleaning a motif *)
Module ExtractorFacts.
Import Extractor PyStrSpec PyStrFacts.

(** The letters of a text, upper-cased. *)
Abbreviation letters text :=
  (PyStr.remove_chars (λ c, negb (is_upper c)) (PyStr.upper text)).

Lemma letters_cons (c : ascii) (s : string) :
  letters (String c s)
  = if is_upper (PyStr.upper_char c)
    then String (PyStr.upper_char c) (letters s) else letters s.
Proof. cbn [PyStr.upper PyStr.remove_chars]. by destruct (is_upper _). Qed.

Lemma digit_no_letter (c : ascii) :
  is_digit c = true → is_upper (PyStr.upper_char c) = false.
Proof. destruct c as [[] [] [] [] [] [] [] []]; by vm_compute. Qed.

Lemma upper_letter_facts (c : ascii) :
  is_upper c = true → PyStr.upper_char c = c ∧ PyStr.isspace c = false.
Proof. destruct c as [[] [] [] [] [] [] [] []]; by vm_compute. Qed.

Lemma upper_char_idemp (c : ascii) :
  PyStr.upper_char (PyStr.upper_char c) = PyStr.upper_char c.
Proof. destruct c as [[] [] [] [] [] [] [] []]; by vm_compute. Qed.

(** A match that holds no letter leaves the letters as they are. *)
Lemma sub_empty_letters (match_len : string → option nat) :
  (∀ s n, match_len s = Some n → letters (String.substring 0 n s) = "") →
  ∀ s skip,
    letters (String.substring 0 skip s) = "" →
    letters (sub_empty match_len skip s) = letters s.
Proof.
  intros Hm. induction s as [|c s IH]; intros skip Hskip; [done|].
  cbn [sub_empty]. destruct skip as [|k].
  - destruct (match_len (String c s)) as [[|k]|] eqn:E.
    + rewrite !letters_cons, IH; [done|]. by destruct s.
    + apply Hm in E. cbn [String.substring] in E. rewrite letters_cons in E.
      destruct (is_upper (PyStr.upper_char c)) eqn:Hc; [done|].
      rewrite letters_cons, Hc. by apply IH.
    + rewrite !letters_cons, IH; [done|]. by destruct s.
  - cbn [String.substring] in Hskip. rewrite letters_cons in Hskip.
    destruct (is_upper (PyStr.upper_char c)) eqn:Hc; [done|].
    rewrite letters_cons, Hc. by apply IH.
Qed.

Lemma digit_run_letters (t : string) :
  PyStr.startswith ")" (String.substring (digit_run t) 1 t) = true →
  letters (String.substring 0 (digit_run t + 1) t) = "".
Proof.
  induction t as [|c t IH]; [done|]. cbn [digit_run].
  destruct (is_digit c) eqn:Hc.
  - cbn [String.substring Nat.add]. intros H.
    by rewrite letters_cons, digit_no_letter, IH.
  - cbn [String.substring Nat.add]. intros H.
    assert (c = ")"%char) as ->.
    { cbn [PyStr.startswith] in H. apply andb_true_iff in H as [H _].
      by apply Ascii.eqb_eq in H. }
    rewrite letters_cons. by destruct t.
Qed.

Lemma match_probability_letters (s : string) (n : nat) :
  match_probability s = Some n → letters (String.substring 0 n s) = "".
Proof.
  unfold match_probability.
  destruct s as [|c1 s]; [intros [=]|].
  destruct c1 as [[] [] [] [] [] [] [] []];
    cbv beta iota; try (intros [=]; fail).
  destruct s as [|c2 s]; [intros [=]|].
  destruct c2 as [[] [] [] [] [] [] [] []];
    cbv beta iota; try (intros [=]; fail).
  destruct s as [|c3 t]; [intros [=]|].
  destruct c3 as [[] [] [] [] [] [] [] []];
    cbv beta iota; try (intros [=]; fail).
  destruct (_ && _) eqn:E; [|intros [=]]. intros [= <-].
  apply andb_true_iff in E as [_ E].
  change (3 + digit_run t + 1)%nat with (S (S (S (digit_run t + 1)))).
  cbn [String.substring]. rewrite !letters_cons.
  change (is_upper (PyStr.upper_char "(")) with false.
  change (is_upper (PyStr.upper_char "0")) with false.
  change (is_upper (PyStr.upper_char ".")) with false.
  cbv iota. by apply digit_run_letters.
Qed.

Lemma match_one_letters (s : string) (n : nat) :
  match_one s = Some n → letters (String.substring 0 n s) = "".
Proof.
  unfold match_one. destruct (PyStr.startswith "(1)" s) eqn:E; [|done].
  intros [= <-]. apply startswith_spec in E as [rest ->].
  by destruct rest.
Qed.

Lemma letters_all_upper (s : string) : all_chars is_upper (letters s) = true.
Proof.
  induction s as [|c s IH]; [done|]. rewrite letters_cons.
  destruct (is_upper (PyStr.upper_char c)) eqn:Hc; [|done].
  simpl. by rewrite Hc.
Qed.

Lemma letters_of_upper (s : string) :
  all_chars is_upper s = true → letters s = s ∧ PyStr.upper s = s.
Proof.
  induction s as [|c s IH]; [done|]. simpl.
  intros [Hc Hs]%andb_true_iff. destruct (IH Hs) as [E1 E2].
  destruct (upper_letter_facts c Hc) as [-> _]. rewrite Hc. simpl.
  by rewrite E1, E2.
Qed.

Lemma strip_of_upper (s : string) :
  all_chars is_upper s = true → PyStr.strip s = s.
Proof.
  intros Hs. unfold PyStr.strip.
  assert (PyStr.lstrip s = s) as ->.
  { destruct s as [|c s]; [done|]. simpl in *.
    apply andb_true_iff in Hs as [Hc _].
    by destruct (upper_letter_facts c Hc) as [_ ->]. }
  induction s as [|c s IH]; [done|]. simpl in Hs.
  apply andb_true_iff in Hs as [Hc Hs]. rewrite rstrip_cons, IH by done.
  destruct s; [|done]. by destruct (upper_letter_facts c Hc) as [_ ->].
Qed.

Lemma length_letters (s : string) :
  (String.length (letters s) ≤ String.length s)%nat.
Proof.
  induction s as [|c s IH]; [done|]. rewrite letters_cons.
  destruct (is_upper _); simpl; lia.
Qed.

Lemma clean_motif_sequence_eq (text : string) :
  clean_motif_sequence text = letters text.
Proof.
  unfold clean_motif_sequence. cbv zeta.
  rewrite (sub_empty_letters _ match_one_letters) by by destruct (sub_empty _ _ _).
  rewrite (sub_empty_letters _ match_probability_letters) by by destruct text.
  apply strip_of_upper, letters_all_upper.
Qed.

(** X22: the cleaned motif is the text's letters, upper-cased and in
    order, whatever annotations stood between them: it holds only
    [A]..[Z], is no longer than the text, is left unchanged by a second
    cleaning and by the validator's upper-casing. *)
Theorem clean_motif_sequence_letters (text : string) :
  clean_motif_sequence text
  = PyStr.remove_chars (λ c, negb (is_upper c)) (PyStr.upper text)
  ∧ all_chars is_upper (clean_motif_sequence text) = true
  ∧ (String.length (clean_motif_sequence text) ≤ String.length text)%nat
  ∧ clean_motif_sequence (clean_motif_sequence text)
    = clean_motif_sequence text
  ∧ PyStr.upper (clean_motif_sequence text) = clean_motif_sequence text.
Proof.
  rewrite !clean_motif_sequence_eq.
  pose proof (letters_all_upper text) as Hup.
  destruct (letters_of_upper _ Hup) as [E1 E2].
  split_and!; [done|done|apply length_letters|done|done].
Qed.
End ExtractorFacts.

(** ** Colouring a sequence paragraph *)
Module MappingFacts.
Import Mapping MappingSpec PyStrFacts.

Lemma append_snoc_nonempty (s : string) (c : ascii) : s +:+ String c "" ≠ "".
Proof. by destruct s. Qed.

Lemma colours_of_cons (t : string) (col : colour)
    (runs : list (string * colour)) :
  colours_of ((t, col) :: runs)
  = replicate (String.length t) col ++ colours_of runs.
Proof. reflexivity. Qed.

(** The loop, entered with a run under way: what it adds to the
    paragraph. *)
Lemma colour_loop_runs (text : string) :
  ∀ (color_map : list colour) (current_run_text : string)
    (current_color : colour) (runs out : list (string * colour)),
    current_run_text ≠ "" →
    colour_loop text color_map current_run_text current_color runs
    = Runs out →
    ∃ t rest,
      let tail := (t, current_color) :: rest in
      out = runs ++ tail
      ∧ text_of tail = current_run_text +:+ text
      ∧ colours_of tail
        = replicate (String.length current_run_text) current_color
          ++ take (String.length text) color_map
      ∧ Forall (λ r, r.1 ≠ "") tail
      ∧ colours_alternate tail.
Proof.
  induction text as [|c text IH]; intros cm cur col runs out Hcur;
    cbn [colour_loop].
  - rewrite decide_False by done. intros [= <-].
    exists cur, []. cbv zeta.
    split_and!; [done|done|done|by repeat constructor|done].
  - destruct cm as [|col' cm]; [done|].
    destruct (decide (col' = col)) as [->|Hcol]; intros Hloop.
    + apply IH in Hloop as (t & rest & -> & Htext & Hcols & Hne & Halt);
        [|apply append_snoc_nonempty].
      exists t, rest. cbv zeta. split_and!; [done| | |done|done].
      * by rewrite Htext, append_assoc.
      * rewrite Hcols, length_append. simpl.
        by rewrite replicate_add, <-app_assoc.
    + apply IH in Hloop as (t & rest & -> & Htext & Hcols & Hne & Halt);
        [|done].
      exists cur, ((t, col') :: rest). cbv zeta. split_and!.
      * by rewrite <-app_assoc.
      * change (text_of ((cur, col) :: (t, col') :: rest))
          with (cur +:+ text_of ((t, col') :: rest)).
        by rewrite Htext.
      * rewrite colours_of_cons, Hcols. done.
      * by constructor.
      * split; [simpl; congruence|done].
Qed.

Lemma colour_loop_outcome (text : string) :
  ∀ (color_map : list colour) (current_run_text : string)
    (current_color : colour) (runs : list (string * colour)),
    ((String.length text ≤ length color_map)%nat →
     ∃ out,
       colour_loop text color_map current_run_text current_color runs
       = Runs out)
    ∧ ((length color_map < String.length text)%nat →
       colour_loop text color_map current_run_text current_color runs
       = IndexError).
Proof.
  induction text as [|c text IH]; intros cm cur col runs; simpl.
  - split; [|lia]. intros _. destruct (decide (cur = "")); by eexists.
  - destruct cm as [|col' cm]; simpl.
    + split; [lia|done].
    + destruct (decide (col' = col)).
      * destruct (IH cm (cur +:+ String c "") col runs) as [H1 H2].
        split; intros ?; [apply H1|apply H2]; lia.
      * destruct (IH cm (String c "") col' (runs ++ [(cur, col)]))
          as [H1 H2].
        split; intros ?; [apply H1|apply H2]; lia.
Qed.

(** X23: which of the three things the call does: it leaves the
    paragraph alone exactly when the colour map is empty, raises
    [IndexError] exactly when a map that is not empty is shorter than
    the text, and rewrites the paragraph otherwise. *)
Theorem apply_colors_to_full_seq_outcome
    (text : string) (color_map : list colour) :
  (apply_colors_to_full_seq text color_map = Untouched ↔ color_map = [])
  ∧ (apply_colors_to_full_seq text color_map = IndexError
     ↔ color_map ≠ [] ∧ (length color_map < String.length text)%nat)
  ∧ ((∃ runs, apply_colors_to_full_seq text color_map = Runs runs)
     ↔ color_map ≠ [] ∧ (String.length text ≤ length color_map)%nat).
Proof.
  unfold apply_colors_to_full_seq. destruct color_map as [|first cm].
  - split_and!; split; try done.
    + by intros [? _].
    + by intros [? ?].
    + by intros [? _].
  - destruct (colour_loop_outcome text (first :: cm) "" first []) as [H1 H2].
    destruct (le_lt_dec (String.length text) (length (first :: cm)))
      as [Hle|Hlt].
    + destruct (H1 Hle) as [out ->]. split_and!; split; try done.
      * intros [_ ?]. lia.
      * by eexists.
    + rewrite (H2 Hlt). split_and!; split; try done.
      * by intros [? ?].
      * intros [_ ?]. lia.
Qed.

Lemma apply_colors_to_full_seq_spec
    (text : string) (color_map : list colour)
    (runs : list (string * colour)) :
  apply_colors_to_full_seq text color_map = Runs runs →
  text_of runs = text
  ∧ colours_of runs = take (String.length text) color_map
  ∧ Forall (λ r, r.1 ≠ "") runs
  ∧ colours_alternate runs.
Proof.
  unfold apply_colors_to_full_seq. destruct color_map as [|first cm]; [done|].
  destruct text as [|c text]; simpl.
  - by intros [= <-].
  - rewrite decide_True by done.
    change ("" +:+ String c "") with (String c "").
    intros (t & rest & -> & Htext & Hcols & Hne & Halt)%colour_loop_runs;
      [|done].
    cbv zeta in *. by rewrite app_nil_l.
Qed.

(** X24: a rewritten paragraph shows the text unchanged, every residue in
    the colour that the map gives it, in runs that are not empty and as
    long as possible (neighbouring runs differ in colour). *)
Theorem apply_colors_to_full_seq_runs
    (text : string) (color_map : list colour)
    (runs : list (string * colour)) :
  apply_colors_to_full_seq text color_map = Runs runs →
  text_of runs = text
  ∧ colours_of runs = take (String.length text) color_map
  ∧ Forall (λ r, r.1 ≠ "") runs
  ∧ colours_alternate runs.
Proof. apply apply_colors_to_full_seq_spec. Qed.

Lemma apply_colors_to_full_seq_runs_witness :
  let color_map : list colour := [None; None; Some 7%Z; Some 7%Z; None] in
  let runs := [("MK", None); ("RS", Some 7%Z); ("L", None)] in
  apply_colors_to_full_seq "MKRSL" color_map = Runs runs
  ∧ text_of runs = "MKRSL"
  ∧ colours_of runs = take 5 color_map
  ∧ Forall (λ r, r.1 ≠ "") runs
  ∧ colours_alternate runs.
Proof.
  intros color_map runs.
  assert (apply_colors_to_full_seq "MKRSL" color_map = Runs runs) as H
    by (vm_compute; reflexivity).
  split; [exact H|].
  exact (apply_colors_to_full_seq_runs "MKRSL" color_map runs H).
Defined.
End MappingFacts.

(** ** Reading the kinases of an annotation *)
Module AnnotationFacts.
Import Pandas Normalization MotifDb Extractor ExtractorSpec.
Import ValidationSpec2 PyStrSpec PyStrFacts PyDictFacts NormalizationFacts.
Import DatabaseNames.

(** *** The loop *)

Lemma extract_key_cases (info_text : string)
    (found_kinases found_scores : list string) (key : string) :
  key ∉ found_kinases →
  extract_key info_text (found_kinases, found_scores) key
  = if decide (reported info_text key)
    then (found_kinases ++ [key], found_scores ++ [score_of info_text key])
    else (found_kinases, found_scores).
Proof.
  intros Hkey. unfold extract_key, score_of.
  destruct (decide (reported info_text key)) as [Hr|Hr]; unfold reported in Hr.
  - destruct (search_scored key info_text) as [g|] eqn:Hs.
    + by rewrite decide_False.
    + destruct Hr as [[? [=]]|Hc]. by rewrite Hc, decide_False.
  - destruct (search_scored key info_text) as [g|] eqn:Hs.
    + destruct Hr. left. by eexists.
    + destruct (PyStr.contains _ _) eqn:Hc; [|done]. destruct Hr. by right.
Qed.

Lemma extract_loop (info_text : string) (keys : list string) :
  ∀ found_kinases found_scores : list string,
    NoDup keys → (∀ k, k ∈ keys → k ∉ found_kinases) →
    foldl (extract_key info_text) (found_kinases, found_scores) keys
    = (found_kinases ++ filter (reported info_text) keys,
       found_scores
       ++ (score_of info_text <$> filter (reported info_text) keys)).
Proof.
  induction keys as [|key keys IH]; intros ks ss Hnd Hfresh.
  - simpl. by rewrite !app_nil_r.
  - apply NoDup_cons in Hnd as [Hkey Hnd]. cbn [foldl].
    rewrite extract_key_cases by (apply Hfresh; left).
    destruct (decide (reported info_text key)) as [Hr|Hr].
    + rewrite IH; [|done|].
      * rewrite filter_cons_True by done. rewrite fmap_cons.
        by rewrite <-!app_assoc.
      * intros k Hk. rewrite elem_of_app, list_elem_of_singleton.
        intros [?| ->]; [|done]. by eapply Hfresh; [right|].
    + rewrite IH; [|done|].
      * by rewrite filter_cons_False by done.
      * intros k Hk. apply Hfresh. by right.
Qed.

Lemma found_in_eq (info_text : string) :
  found_in info_text
  = (filter (reported info_text) KINASE_KEYS,
     score_of info_text <$> filter (reported info_text) KINASE_KEYS).
Proof.
  unfold found_in.
  rewrite extract_loop; [done|apply KINASE_KEYS_NoDup|].
  intros k _. apply not_elem_of_nil.
Qed.

(** *** The shape of a score *)

Lemma digits_number_text (s : string) : number_text (digits s).
Proof.
  unfold number_text. induction s as [|c s IH]; [done|]. simpl.
  destruct (is_digit c) eqn:Hc; [|done]. simpl. by rewrite Hc.
Qed.

Lemma all_chars_append (f : ascii → bool) (s t : string) :
  all_chars f (s +:+ t) = all_chars f s && all_chars f t.
Proof.
  induction s as [|c s IH]; [done|].
  rewrite append_cons. simpl. by rewrite IH, andb_assoc.
Qed.

Lemma all_chars_impl (f g : ascii → bool) (s : string) :
  (∀ c, f c = true → g c = true) →
  all_chars f s = true → all_chars g s = true.
Proof.
  intros Hfg. induction s as [|c s IH]; [done|]. simpl.
  intros [Hc Hs]%andb_true_iff. by rewrite (Hfg c Hc), IH.
Qed.

Lemma match_number_text (s g : string) :
  match_number s = Some g → number_text g.
Proof.
  unfold match_number.
  destruct (after_digits s) as [|c frac]; [done|].
  destruct (Ascii.eqb_spec c "."); [subst c|by destruct c as [[] [] [] [] [] [] [] []]].
  destruct (_ && _); [|done]. intros [= <-].
  unfold number_text. rewrite all_chars_append. simpl.
  by rewrite !digits_number_text.
Qed.

Lemma match_scored_text (key s g : string) :
  match_scored key s = Some g → number_text g.
Proof.
  unfold match_scored. destruct (match_literal key s) as [[|c rest]|]; try done.
  destruct (Ascii.eqb_spec c ":"); [subst c|by destruct c as [[] [] [] [] [] [] [] []]].
  apply match_number_text.
Qed.

Lemma search_scored_text (key s g : string) :
  search_scored key s = Some g → number_text g.
Proof.
  induction s as [|c s IH]; cbn [search_scored].
  - destruct (match_scored key "") eqn:E; [|done].
    intros [= <-]. by eapply match_scored_text.
  - destruct (match_scored key (String c s)) eqn:E; [|done].
    intros [= <-]. by eapply match_scored_text.
Qed.

Lemma score_of_text (info_text key : string) :
  number_text (score_of info_text key).
Proof.
  unfold score_of. destruct (search_scored key info_text) eqn:E; [|done].
  by eapply search_scored_text.
Qed.

Lemma number_char_facts (c : ascii) :
  is_digit c || Ascii.eqb "." c = true →
  negb (PyStr.isspace c) = true ∧ negb (Ascii.eqb "," c) = true.
Proof. destruct c as [[] [] [] [] [] [] [] []]; by vm_compute. Qed.

Lemma strip_no_space (s : string) :
  free_of PyStr.isspace s → PyStr.strip s = s.
Proof.
  unfold free_of. intros Hs. unfold PyStr.strip.
  assert (PyStr.lstrip s = s) as ->.
  { destruct s as [|c s]; [done|]. simpl in *.
    apply andb_true_iff in Hs as [Hc _]. apply negb_true_iff in Hc.
    by rewrite Hc. }
  induction s as [|c s IH]; [done|]. simpl in Hs.
  apply andb_true_iff in Hs as [Hc Hs]. apply negb_true_iff in Hc.
  rewrite rstrip_cons, IH by done. destruct s; [|done]. by rewrite Hc.
Qed.

(** X25: what [extract_kinases_from_info] returns: the kinases of the
    database that the annotation names, in declaration order and none
    twice, and position by position the score of each: the number
    behind its first scored mention, made of digits and one point, or
    the empty text. *)
Theorem extract_kinases_from_info_aligned (info_text : string) :
  let found_kinases := filter (reported info_text) KINASE_KEYS in
  let found_scores := score_of info_text <$> found_kinases in
  extract_kinases_from_info info_text
  = (PyStr.join ", " found_kinases, PyStr.join ", " found_scores)
  ∧ found_kinases `sublist_of` KINASE_KEYS
  ∧ NoDup found_kinases
  ∧ length found_scores = length found_kinases
  ∧ Forall number_text found_scores.
Proof.
  intros ks ss. unfold extract_kinases_from_info.
  rewrite found_in_eq. fold ks. fold ss. split_and!.
  - done.
  - apply sublist_filter.
  - apply NoDup_filter, KINASE_KEYS_NoDup.
  - apply length_fmap.
  - apply Forall_fmap, Forall_forall. intros k _. apply score_of_text.
Qed.

(** *** From the annotation to one row per kinase *)

Lemma split_comma_join (x : string) (xs : list string) :
  Forall (free_of (Ascii.eqb ",")) (x :: xs) →
  PyStr.split "," (PyStr.join ", " (x :: xs)) = x :: (String " " <$> xs).
Proof.
  unfold PyStr.split.
  revert x. induction xs as [|y xs IH]; intros x.
  - intros [Hx _]%Forall_cons. simpl. by apply split_at_of_free.
  - intros [Hx Hrest]%Forall_cons.
    change (PyStr.join ", " (x :: y :: xs))
      with (x +:+ ", " +:+ PyStr.join ", " (y :: xs)).
    rewrite ScorerMore.split_at_append_free by done.
    change (", " +:+ PyStr.join ", " (y :: xs))
      with (String "," (String " " (PyStr.join ", " (y :: xs)))).
    cbn [PyStr.split_at]. change (Ascii.eqb "," ",") with true.
    change (Ascii.eqb "," " ") with false. cbv iota.
    rewrite IH by done. simpl. by rewrite append_nil_r.
Qed.

Lemma clean_name_facts (k : string) :
  clean_name k →
  free_of (Ascii.eqb ",") k ∧ PyStr.strip k = k ∧ k ≠ "".
Proof.
  intros (Hs & Hne & Hfree). split_and!; [|done|done].
  revert Hfree. unfold free_of. apply all_chars_impl.
  intros c Hc. apply negb_true_iff in Hc. apply negb_true_iff.
  simpl in Hc. apply orb_false_iff in Hc as [_ Hc].
  apply orb_false_iff in Hc as [Hc _].
  by rewrite Ascii.eqb_sym.
Qed.

Lemma number_text_facts (s : string) :
  number_text s → free_of (Ascii.eqb ",") s ∧ PyStr.strip s = s.
Proof.
  intros Hs. split.
  - revert Hs. apply all_chars_impl. intros c Hc.
    by destruct (number_char_facts c Hc).
  - apply strip_no_space. revert Hs. apply all_chars_impl. intros c Hc.
    by destruct (number_char_facts c Hc).
Qed.

(** The row of a kinase and its score. *)
Abbreviation scored_row row :=
  (λ ks : string * string,
     <["Kinase Name" := Str ks.1]> (<["Confidence" := Str ks.2]> row)).

Lemma stripped_rows (row : gmap string cell) (ks ss : list string) :
  length ks = length ss →
  Forall (λ k, PyStr.strip k = k) ks → Forall (λ s, PyStr.strip s = s) ss →
  strip_kinase
    <$> ((λ kc : string * string,
            <["Confidence" := Str (PyStr.strip kc.2)]>
              (<["Kinase Name" := Str kc.1]> row))
           <$> zip (String " " <$> ks) (String " " <$> ss))
  = scored_row row <$> zip ks ss.
Proof.
  revert ss. induction ks as [|k ks IH]; intros [|s ss]; try done.
  intros [= Hlen] [Hk Hks]%Forall_cons [Hs Hss]%Forall_cons.
  csimpl. rewrite IH by done. f_equal.
  rewrite NormalizationMore.strip_kinase_insert_conf.
  by rewrite !ScorerMore.strip_space_cons, Hk, Hs.
Qed.

Lemma scored_rows_kept (row : gmap string cell) (ks ss : list string) :
  length ks = length ss → NoDup ks → Forall clean_name ks →
  drop_duplicates motif_kinase
    (filter (λ r, at_ r "Kinase Name" ≠ Str "")
            (scored_row row <$> zip ks ss))
  = scored_row row <$> zip ks ss.
Proof.
  intros Hlen Hnd Hall.
  rewrite filter_all.
  2:{ apply Forall_fmap, Forall_forall. intros [k s] Hin. simpl.
      rewrite at_insert_eq. intros [= E].
      apply elem_of_zip_l in Hin. rewrite Forall_forall in Hall.
      by destruct (Hall k Hin) as (_ & ? & _). }
  unfold drop_duplicates. apply drop_duplicates_from_id.
  - rewrite <-list_fmap_compose.
    assert (NoDup (zip ks ss).*1) as Hnd'.
    { rewrite fst_zip by lia. done. }
    revert Hnd'. generalize (zip ks ss). intros l Hl.
    induction l as [|[k s] l IH]; [constructor|].
    rewrite fmap_cons in Hl. apply NoDup_cons in Hl as [Hk Hl].
    rewrite fmap_cons. apply NoDup_cons. split; [|by apply IH].
    intros ([k' s'] & E & Hin)%list_elem_of_fmap. apply Hk.
    unfold motif_kinase in E. simpl in E. rewrite !at_insert_eq in E.
    injection E as _ ->. apply list_elem_of_fmap. by exists (k', s').
  - intros r _. apply not_elem_of_nil.
Qed.

Lemma tidy_extracted (row : gmap string cell) (ks ss : list string) :
  length ks = length ss → NoDup ks →
  Forall clean_name ks → Forall number_text ss →
  tidy (explode_aligned
          (<["Confidence" := Str (PyStr.join ", " ss)]>
             (<["Kinase Name" := Str (PyStr.join ", " ks)]> row)))
  = scored_row
      (<["Confidence" := Str (PyStr.join ", " ss)]>
         (<["Kinase Name" := Str (PyStr.join ", " ks)]> row))
      <$> zip ks ss.
Proof.
  intros Hlen Hnd Hks Hss.
  set (row' := <["Confidence" := _]> _).
  assert (at_ row' "Kinase Name" = Str (PyStr.join ", " ks)) as HK.
  { unfold row'. rewrite (at_insert_ne _ "Confidence" "Kinase Name") by done.
    apply at_insert_eq. }
  assert (at_ row' "Confidence" = Str (PyStr.join ", " ss)) as HC
    by apply at_insert_eq.
  unfold explode_aligned. rewrite HK, HC. clear HK HC.
  unfold split_cell. cbn [fillna to_str].
  destruct ks as [|k ks], ss as [|s ss]; try done.
  { change (PyStr.split "," (PyStr.join ", " [])) with [""].
    change (_align [""] [""]) with ([""], [""]).
    cbn [zip zip_with]. rewrite list_fmap_singleton.
    unfold tidy. cbv zeta. rewrite list_fmap_singleton.
    rewrite NormalizationMore.strip_kinase_insert_conf.
    rewrite filter_cons_False; [done|].
    rewrite at_insert_eq. intros H. by apply H. }
  rewrite !split_comma_join.
  2:{ eapply Forall_impl; [exact Hss|]. intros ? H.
      by destruct (number_text_facts _ H). }
  2:{ eapply Forall_impl; [exact Hks|]. intros ? H.
      by destruct (clean_name_facts _ H). }
  unfold _align. cbn [length]. rewrite !length_fmap.
  injection Hlen as Hlen. rewrite Hlen, Nat.sub_diag, app_nil_r.
  rewrite take_ge by (cbn [length]; rewrite length_fmap; lia).
  rewrite <-(scored_rows_kept row' (k :: ks) (s :: ss))
    by (done || (cbn [length]; lia)).
  unfold tidy. cbv zeta. do 2 f_equal.
  apply Forall_cons in Hks as [Hk Hks]. apply Forall_cons in Hss as [Hs Hss].
  destruct (clean_name_facts _ Hk) as (_ & Hk1 & _).
  destruct (number_text_facts _ Hs) as [_ Hs1].
  cbn [zip zip_with]. rewrite !fmap_cons.
  rewrite stripped_rows; [|done| |].
  2:{ eapply Forall_impl; [exact Hks|]. intros ? H.
      by destruct (clean_name_facts _ H) as (_ & ? & _). }
  2:{ eapply Forall_impl; [exact Hss|]. intros ? H.
      by destruct (number_text_facts _ H). }
  rewrite NormalizationMore.strip_kinase_insert_conf. cbn [fst snd].
  by rewrite Hk1, Hs1.
Qed.

Lemma zip_fmap_same {A B : Type} (f : A → B) (l : list A) :
  zip l (f <$> l) = (λ x, (x, f x)) <$> l.
Proof. induction l as [|x l IH]; [done|]. csimpl. by rewrite IH. Qed.

(** X26: a row made from an annotation keeps every kinase with its own
    score through the normaliser: the one row holding the two joined
    strings becomes one row per reported kinase, in declaration order,
    each with that kinase's score as its confidence. *)
Theorem extracted_row_normalizes
    (info_text : string) (row : gmap string cell) (cols : list string) :
  "Motif" ∈ cols → "Kinase Name" ∈ cols → "Confidence" ∈ cols →
  let extracted :=
    <["Confidence" := Str (extract_kinases_from_info info_text).2]>
      (<["Kinase Name" := Str (extract_kinases_from_info info_text).1]> row)
  in
  normalize_kinase_rows (mkDataFrame cols [extracted])
  = Ok (mkDataFrame cols
          ((λ k, <["Kinase Name" := Str k]>
                   (<["Confidence" := Str (score_of info_text k)]> extracted))
             <$> filter (reported info_text) KINASE_KEYS)).
Proof.
  intros Hm Hk Hc. unfold extract_kinases_from_info.
  rewrite found_in_eq. cbn [fst snd]. cbv zeta.
  unfold normalize_kinase_rows. cbn [columns rows].
  rewrite decide_True.
  2:{ apply set_eq. intros c.
      rewrite (missing_columns_iff (mkDataFrame cols []) c).
      cbn [columns]. split; [|by intros ?%not_elem_of_empty].
      intros [[-> | ->] Hn]; by destruct Hn. }
  rewrite decide_True by done. do 2 f_equal.
  cbn [mbind list_bind]. rewrite app_nil_r.
  rewrite tidy_extracted.
  - by rewrite zip_fmap_same, <-list_fmap_compose.
  - by rewrite length_fmap.
  - apply NoDup_filter, KINASE_KEYS_NoDup.
  - apply Forall_forall. intros k [_ Hin]%list_elem_of_filter.
    pose proof KINASE_KEYS_clean as H. rewrite Forall_forall in H.
    by apply H.
  - apply Forall_fmap, Forall_forall. intros k _. apply score_of_text.
Qed.

Lemma extracted_row_normalizes_witness :
  let cols := ["Gene Name"; "Motif"; "Kinase Name"; "Confidence"] in
  let row : gmap string cell :=
    {[ "Gene Name" := Str "TP53"; "Motif" := Str "RRASL" ]} in
  let extracted : gmap string cell :=
    <["Confidence" := Str "0.60, 0.85"]>
      (<["Kinase Name" := Str "PKA, AKT"]> row) in
  extract_kinases_from_info "12 AKT:0.85, PKA:0.60)"
  = ("PKA, AKT", "0.60, 0.85")
  ∧ normalize_kinase_rows (mkDataFrame cols [extracted])
    = Ok (mkDataFrame cols
            [ <["Kinase Name" := Str "PKA"]>
                (<["Confidence" := Str "0.60"]> extracted);
              <["Kinase Name" := Str "AKT"]>
                (<["Confidence" := Str "0.85"]> extracted) ]).
Proof.
  intros cols row extracted. split; [vm_compute; reflexivity|].
  assert ("Motif" ∈ cols) as Hm by (right; left).
  assert ("Kinase Name" ∈ cols) as Hk by (right; right; left).
  assert ("Confidence" ∈ cols) as Hc by (right; right; right; left).
  exact (extracted_row_normalizes "12 AKT:0.85, PKA:0.60)" row cols
           Hm Hk Hc).
Defined.

(** *** A name inside another *)

Lemma search_scored_here (key s g : string) :
  match_scored key s = Some g → is_Some (search_scored key s).
Proof. intros E. destruct s; cbn [search_scored]; by rewrite E. Qed.

Lemma search_scored_later (key s : string) (c : ascii) :
  is_Some (search_scored key s) → is_Some (search_scored key (String c s)).
Proof.
  intros H. cbn [search_scored].
  by destruct (match_scored key (String c s)).
Qed.

Lemma match_scored_CaMK2 (s g : string) :
  match_scored "CaMK2" s = Some g →
  ∃ c1 c2 rest, s = String c1 (String c2 rest)
                ∧ match_scored "MK2" rest = Some g.
Proof.
  unfold match_scored. destruct s as [|c1 [|c2 rest]].
  - done.
  - cbn [match_literal]. by destruct (eqb_nocase "C" c1).
  - cbn [match_literal].
    destruct (eqb_nocase "C" c1); [|done].
    destruct (eqb_nocase "a" c2); [|done].
    intros H. by exists c1, c2, rest.
Qed.

Lemma search_scored_CaMK2 (s : string) :
  is_Some (search_scored "CaMK2" s) → is_Some (search_scored "MK2" s).
Proof.
  induction s as [|c s IH].
  - cbn [search_scored]. by destruct (match_scored "CaMK2" "") eqn:E.
  - cbn [search_scored].
    destruct (match_scored "CaMK2" (String c s)) as [g|] eqn:E.
    + intros _. apply match_scored_CaMK2 in E as (c1 & c2 & rest & [= -> ->] & E).
      by apply search_scored_later, search_scored_later, search_scored_here
        with g.
    + intros H. by apply search_scored_later, IH.
Qed.

(** X27: [MK2] rides on [CaMK2]: an annotation that names CaMK2, scored
    or not, is read as naming MK2 as well, because the name [MK2] is
    looked for anywhere in the text and [CaMK2] ends with it. *)
Theorem extract_kinases_CaMK2_brings_MK2 (info_text : string) :
  "CaMK2" ∈ (found_in info_text).1 → "MK2" ∈ (found_in info_text).1.
Proof.
  rewrite found_in_eq. cbn [fst]. rewrite !list_elem_of_filter.
  intros [Hr _]. split; [|by apply (bool_decide_unpack _); vm_compute].
  destruct Hr as [Hs|Hc]; [left; by apply search_scored_CaMK2|right].
  apply contains_spec in Hc as (pre & post & E). apply contains_spec.
  exists (pre +:+ "CA"), post. rewrite E.
  change (PyStr.upper "CaMK2") with ("CA" +:+ "MK2").
  change (PyStr.upper "MK2") with "MK2".
  by rewrite !append_assoc.
Qed.

Lemma extract_kinases_CaMK2_brings_MK2_witness :
  "CaMK2" ∈ (found_in "12 CaMK2:0.55)").1
  ∧ "MK2" ∈ (found_in "12 CaMK2:0.55)").1
  ∧ extract_kinases_from_info "12 CaMK2:0.55)" = ("CaMK2, MK2", "0.55, 0.55").
Proof.
  assert ("CaMK2" ∈ (found_in "12 CaMK2:0.55)").1) as H
    by (apply (bool_decide_unpack _); vm_compute; exact I).
  split; [exact H|]. split; [|vm_compute; reflexivity].
  exact (extract_kinases_CaMK2_brings_MK2 "12 CaMK2:0.55)" H).
Defined.
End AnnotationFacts.
